(** * The ingestion-and-retrieval pipeline of the educational tutor backend

    A shallow embedding of [ingest.py], [answer_once.py] and the
    [delete_pdf] handler of [app.py], followed by the properties of the
    pipeline: chunking, batched embedding, retrieval de-duplication,
    empty-document ingestion, deletion scope and text normalisation.

    Python values are modelled as follows: [int] is [Z]; [str] is the list
    of its Unicode code points; a [list] is a [list]; a [dict] is a [gmap];
    a [set] is a [gset]; [None] is the [None] of an [option].  A call that
    can raise returns a [result]; code that changes the embedding client,
    the vector store or the data directory threads a [World]. *)

From stdpp Require Import gmap strings pretty list fin_maps sorting.
From Stdlib Require Import ZArith QArith Lia.

#[local] Close Scope Q_scope.
#[local] Set Warnings "-clear-no-such-hyp".

(** ** Part I: the program *)

(** *** Python values and control *)

Definition codepoint := N.
Definition pystr := list codepoint.

(** A string literal of the source, as a [pystr]. *)
Definition py (s : string) : pystr :=
  (λ c, N.of_nat (Ascii.nat_of_ascii c)) <$> String.list_ascii_of_string s.

Definition len {A} (l : list A) : Z := Z.of_nat (length l).

(** The exceptions the modelled code can raise. *)
Inductive exn := ValueError | IndexError | ServiceError | DuplicateIDError.

(** Outcome of running a piece of Python: a value, an exception, or
    [Diverge] when the fuel given to a [while] loop ran out. *)
Inductive result (A : Type) :=
  | Ok (a : A)
  | Raise (e : exn)
  | Diverge.
Arguments Ok {A} a.
Arguments Raise {A} e.
Arguments Diverge {A}.

Definition result_bind {A B} (f : A → result B) (r : result A) : result B :=
  match r with
  | Ok a => f a
  | Raise e => Raise e
  | Diverge => Diverge
  end.

#[global] Instance result_ret : MRet result := @Ok.
#[global] Instance result_mbind : MBind result := @result_bind.

(** [l[lo:hi]]: negative bounds count from the end, and both bounds are
    clamped to the list. *)
Definition slice_bound (n i : Z) : Z :=
  if decide (i < 0)%Z then Z.max (i + n) 0 else Z.min i n.

Definition py_slice {A} (l : list A) (lo hi : Z) : list A :=
  let lo' := slice_bound (len l) lo in
  let hi' := slice_bound (len l) hi in
  take (Z.to_nat (hi' - lo')) (drop (Z.to_nat lo') l).

(** [l[0]]. *)
Definition py_first {A} (l : list A) : result A :=
  match l with
  | x :: _ => Ok x
  | [] => Raise IndexError
  end.

(** [range(start, stop, step)], as the list of its values. *)
Definition range_length (start stop step : Z) : Z :=
  if decide (0 < step)%Z then
    if decide (start < stop)%Z then ((stop - start - 1) / step + 1)%Z else 0%Z
  else
    if decide (stop < start)%Z then ((start - stop - 1) / (- step) + 1)%Z else 0%Z.

Definition py_range (start stop step : Z) : result (list Z) :=
  if decide (step = 0)%Z then Raise ValueError
  else Ok ((λ j : nat, (start + Z.of_nat j * step)%Z)
             <$> seq 0 (Z.to_nat (range_length start stop step))).

(** [while cond(s): s = body(s)], run for at most [fuel] tests of the
    condition. *)
Fixpoint py_while {S} (cond : S → bool) (body : S → S) (fuel : nat) (s : S)
  : result S :=
  match fuel with
  | O => Diverge
  | S fuel' => if cond s then py_while cond body fuel' (body s) else Ok s
  end.

(** *** ingest.py: chunking helpers *)

(** The tiktoken encoding object [enc], on the texts it encodes. *)
Class Encoding := {
  encode : pystr → list Z;
  decode : list Z → pystr;
}.


(** The loop of [chunk_text].  Its state is [(i, chunks)]; [dec] is what is
    applied to a window before it is appended ([enc.decode] in the source). *)
Definition chunk_cond (tokens : list Z) {A} (st : Z * list A) : bool :=
  bool_decide (st.1 < len tokens)%Z.

Definition chunk_body {A} (dec : list Z → A) (tokens : list Z)
    (max_tokens overlap : Z) (st : Z * list A) : Z * list A :=
  let '(i, chunks) := st in
  let window := py_slice tokens i (i + max_tokens) in
  (i + (max_tokens - overlap), chunks ++ [dec window])%Z.

Definition chunk_loop {A} (dec : list Z → A) (fuel : nat) (tokens : list Z)
    (max_tokens overlap : Z) : result (list A) :=
  st ← py_while (chunk_cond tokens) (chunk_body dec tokens max_tokens overlap)
        fuel (0%Z, []);
  mret st.2.

Definition chunk_text `{Encoding} (fuel : nat) (text : pystr)
    (max_tokens overlap : Z) : result (list pystr) :=
  let tokens := encode text in
  chunk_loop decode fuel tokens max_tokens overlap.

(** The token windows [tokens[i:i+max_tokens]] of [chunk_text], before
    decoding: the same loop with nothing applied to the window. *)
Definition chunk_windows (fuel : nat) (tokens : list Z)
    (max_tokens overlap : Z) : result (list (list Z)) :=
  chunk_loop id fuel tokens max_tokens overlap.

(** A tokenizer with one token per code point, for the examples. *)
Definition codepoint_encoding : Encoding := {|
  encode text := Z.of_N <$> text;
  decode tokens := Z.to_N <$> tokens;
|}.




(** [clean]: [re.sub(r"\s+", " ", s).strip()]. *)

(** The code points for which [\s] matches and which [str.strip] removes
    (CPython's [Py_UNICODE_ISSPACE]). *)
Definition isspace (c : codepoint) : bool :=
  ((9 <=? c) && (c <=? 13) || (28 <=? c) && (c <=? 32)
   || (c =? 133) || (c =? 160) || (c =? 5760)
   || (8192 <=? c) && (c <=? 8202)
   || (c =? 8232) || (c =? 8233) || (c =? 8239) || (c =? 8287)
   || (c =? 12288))%N.

Definition SPACE : codepoint := 32%N.

(** [re.sub(r"\s+", " ", s)]: every maximal run of whitespace becomes one
    space.  A whitespace character followed by another one is inside a run
    and is dropped; the last one of the run is replaced by the space. *)
Fixpoint sub_whitespace (s : pystr) : pystr :=
  match s with
  | [] => []
  | c :: s' =>
      if isspace c then
        match s' with
        | c' :: _ => if isspace c' then sub_whitespace s'
                     else SPACE :: sub_whitespace s'
        | [] => [SPACE]
        end
      else c :: sub_whitespace s'
  end.

Fixpoint dropwhile {A} (p : A → bool) (l : list A) : list A :=
  match l with
  | [] => []
  | x :: l' => if p x then dropwhile p l' else l
  end.

Definition lstrip (s : pystr) : pystr := dropwhile isspace s.
Definition rstrip (s : pystr) : pystr := reverse (dropwhile isspace (reverse s)).
Definition strip (s : pystr) : pystr := rstrip (lstrip s).

Definition clean (s : pystr) : pystr :=
  let s := sub_whitespace s in
  strip s.

(** [pdf_to_pages]: a PDF is given by what [extract_text] returns for each
    of its pages ([None] or a string); the generator yields the 1-based page
    number with the cleaned text. *)
Definition enumerate {A} (start : Z) (l : list A) : list (Z * A) :=
  imap (λ j x, (start + Z.of_nat j, x)%Z) l.

Definition pdf_to_pages (reader_pages : list (option pystr)) : list (Z * pystr) :=
  (λ '(i, page), let raw := default [] page in (i, clean raw))
    <$> enumerate 1 reader_pages.

(** *** The collaborators and the state they keep *)

(** A Python float, as the rational it denotes; embedding vectors and
    distances are only carried around. *)
Definition pyfloat := Q.
Definition vector := list pyfloat.

(** Metadata values of a record: strings and integers. *)
Inductive MetaVal := MStr (s : pystr) | MInt (z : Z).

#[global] Instance MetaVal_eq_dec : EqDecision MetaVal.
Proof. solve_decision. Defined.

#[global] Instance MetaVal_countable : Countable MetaVal :=
  inj_countable'
    (λ v, match v with MStr s => inl s | MInt z => inr z end)
    (λ x, match x with inl s => MStr s | inr z => MInt z end)
    ltac:(by intros []).

Abbreviation Meta := (gmap string MetaVal).

(** A record of a Chroma collection. *)
Record Rec := {
  rec_id : pystr;
  rec_document : option pystr;
  rec_metadata : option Meta;
  rec_embedding : vector;
}.

(** What [col.query] returns: a dict whose entries hold one list per query
    embedding; [None] is a key that is not in the dict. *)
Record QueryResult := {
  res_ids : option (list (list pystr));
  res_documents : option (list (list (option pystr)));
  res_metadatas : option (list (list (option Meta)));
  res_distances : option (list (list pyfloat));
}.

(** The OpenAI client: the vectors [embeddings.create] answers with for an
    input batch, given the batches sent before; [None] when the call fails. *)
Class EmbeddingClient := {
  embeddings_response : list (list pystr) → list pystr → option (list vector);
}.

(** Chroma's nearest-neighbour search over the records of a collection. *)
Class VectorIndex := {
  index_query : list Rec → vector → Z → result QueryResult;
}.

(** The random source behind [uuid.uuid4().hex]: the n-th value drawn. *)
Class Entropy := {
  uuid4_hex : nat → pystr;
}.

(** Files of [DATA_DIR], collections of the Chroma databases (by path and
    collection name), the batches sent to the embedder so far, and the
    number of UUIDs drawn. *)
Record World := {
  data_dir : gset pystr;
  chroma : gmap (pystr * pystr) (list Rec);
  embed_calls : list (list pystr);
  uuids_drawn : nat;
}.

Definition set_data_dir (f : gset pystr) (w : World) : World :=
  {| data_dir := f; chroma := chroma w;
     embed_calls := embed_calls w; uuids_drawn := uuids_drawn w |}.
Definition set_chroma (c : gmap (pystr * pystr) (list Rec)) (w : World) : World :=
  {| data_dir := data_dir w; chroma := c;
     embed_calls := embed_calls w; uuids_drawn := uuids_drawn w |}.
Definition set_embed_calls (l : list (list pystr)) (w : World) : World :=
  {| data_dir := data_dir w; chroma := chroma w;
     embed_calls := l; uuids_drawn := uuids_drawn w |}.
Definition set_uuids_drawn (n : nat) (w : World) : World :=
  {| data_dir := data_dir w; chroma := chroma w;
     embed_calls := embed_calls w; uuids_drawn := n |}.

(** Code with effects: a function of the world that returns an outcome and
    the world it leaves behind (also when it raises). *)
Definition M (A : Type) : Type := World → result A * World.

Definition M_ret {A} (a : A) : M A := λ w, (Ok a, w).
Definition M_bind {A B} (f : A → M B) (m : M A) : M B :=
  λ w, match m w with
       | (Ok a, w') => f a w'
       | (Raise e, w') => (Raise e, w')
       | (Diverge, w') => (Diverge, w')
       end.
Definition lift {A} (r : result A) : M A := λ w, (r, w).

#[global] Instance M_mret : MRet M := @M_ret.
#[global] Instance M_mbind : MBind M := @M_bind.

(** [for x in l: s = body(s, x)]. *)
Fixpoint for_each {A S} (body : S → A → M S) (l : list A) (s : S) : M S :=
  match l with
  | [] => mret s
  | x :: l' => s' ← body s x; for_each body l' s'
  end.

(** [client.embeddings.create(model=EMBED_MODEL, input=batch)], followed by
    [[d.embedding for d in resp.data]]: the call is recorded, and a failed
    call raises. *)
Definition embeddings_create `{EmbeddingClient} (batch : list pystr)
  : M (list vector) :=
  λ w, let w' := set_embed_calls (embed_calls w ++ [batch]) w in
       match embeddings_response (embed_calls w) batch with
       | Some data => (Ok data, w')
       | None => (Raise ServiceError, w')
       end.

(** [uuid.uuid4().hex]. *)
Definition uuid4 `{Entropy} : M pystr :=
  λ w, (Ok (uuid4_hex (uuids_drawn w)), set_uuids_drawn (S (uuids_drawn w)) w).

(** Modelled from the spec: the vector store collaborator (Chroma), which
    is not part of the repository.  [get_or_create_collection] makes the
    collection (empty) when the database has none of that name. *)
Definition get_or_create_collection (path name : pystr) : M (pystr * pystr) :=
  λ w, match chroma w !! (path, name) with
       | Some _ => (Ok (path, name), w)
       | None => (Ok (path, name), set_chroma (<[(path, name) := []]> (chroma w)) w)
       end.

Definition collection_records (col : pystr * pystr) (w : World) : list Rec :=
  default [] (chroma w !! col).

Definition zip_records (ids : list pystr) (documents : list pystr)
    (metadatas : list Meta) (embeddings : list vector) : list Rec :=
  (λ '(id, d, m, e), {| rec_id := id; rec_document := Some d;
                        rec_metadata := Some m; rec_embedding := e |})
    <$> zip (zip (zip ids documents) metadatas) embeddings.

(** [col.add] of the vector store collaborator, as Chroma does it: the
    call is refused when no id is given, when the four arguments are not
    of one length, or when an id occurs twice among them; otherwise one
    record per index is written after the records the collection holds,
    except for an id the collection holds already, whose record is kept
    as it is (the write of the spec, an upsert, would replace it). *)
Definition col_add (col : pystr * pystr) (ids : list pystr)
    (documents : list pystr) (metadatas : list Meta) (embeddings : list vector)
  : M unit :=
  λ w, if decide (ids ≠ []
                  ∧ length documents = length ids
                  ∧ length metadatas = length ids
                  ∧ length embeddings = length ids)
       then
         if decide (NoDup ids)
         then
           let held := rec_id <$> collection_records col w in
           (Ok (),
            set_chroma
              (<[col := collection_records col w
                        ++ filter (λ r, rec_id r ∉ held)
                             (zip_records ids documents metadatas embeddings)]>
                 (chroma w)) w)
         else (Raise DuplicateIDError, w)
       else (Raise ValueError, w).

(** A record matches a [where] filter when its metadata holds every entry
    of the filter. *)
Definition matches_where (where_ : Meta) (r : Rec) : Prop :=
  match rec_metadata r with
  | Some m => map_Forall (λ key v, m !! key = Some v) where_
  | None => False
  end.

#[global] Instance matches_where_dec where_ r : Decision (matches_where where_ r).
Proof. unfold matches_where. destruct (rec_metadata r); apply _. Defined.

(** Modelled from the spec: [col.delete(where=...)] of the vector store
    collaborator bulk-removes all matching records of the collection. *)
Definition col_delete (col : pystr * pystr) (where_ : Meta) : M unit :=
  λ w, (Ok (), set_chroma (<[col := filter (λ r, ¬ matches_where where_ r)
                                      (collection_records col w)]> (chroma w)) w).

(** [col.query(query_embeddings=[qvec], n_results=k, include=[...])]. *)
Definition col_query `{VectorIndex} (col : pystr * pystr) (qvec : vector) (k : Z)
  : M QueryResult :=
  λ w, (index_query (collection_records col w) qvec k, w).

(** *** ingest.py: embedding and ingestion *)

(** The body of the loop of [embed_batches] (the progress line it prints is
    left out). *)
Definition embed_batch_step `{EmbeddingClient} (texts : list pystr)
    (batch_size : Z) (all_vecs : list vector) (i : Z) : M (list vector) :=
  let batch := py_slice texts i (i + batch_size) in
  data ← embeddings_create batch;
  mret (all_vecs ++ data).

Definition embed_batches `{EmbeddingClient} (texts : list pystr)
    (batch_size : Z) : M (list vector) :=
  let all_vecs := [] in
  let n := len texts in
  starts ← lift (py_range 0 n batch_size);
  for_each (embed_batch_step texts batch_size) starts all_vecs.

(** The result dict [{"pages": ..., "chunks": ...}]. *)
Record Stats := { pages : Z; chunks : Z }.

(** [f"{pdf_path.name}-p{page_no}-{idx}-{uuid.uuid4().hex[:8]}"]. *)
Definition chunk_id (name : pystr) (page_no idx : Z) (hex : pystr) : pystr :=
  name ++ py "-p" ++ py (pretty page_no) ++ py "-" ++ py (pretty idx)
       ++ py "-" ++ py_slice hex 0 8.

(** The inner loop of [ingest_single_pdf], over the chunks of one page;
    the state is [(ids, docs, metas)]. *)
Definition ingest_chunk `{Entropy} (name : pystr) (page_no : Z)
    (st : list pystr * list pystr * list Meta) (entry : Z * pystr)
  : M (list pystr * list pystr * list Meta) :=
  let '(ids, docs, metas) := st in
  let '(idx, chunk) := entry in
  hex ← uuid4;
  mret (ids ++ [chunk_id name page_no idx hex],
        docs ++ [chunk],
        metas ++ [{[ "source" := MStr name; "page" := MInt page_no ]}]).

(** The outer loop, over the pages; the state is
    [(ids, docs, metas, page_count)]. *)
Definition ingest_page `{Encoding, Entropy} (fuel : nat) (name : pystr)
    (st : list pystr * list pystr * list Meta * Z) (entry : Z * pystr)
  : M (list pystr * list pystr * list Meta * Z) :=
  let '(lists, page_count) := st in
  let '(page_no, page_text) := entry in
  let page_count := (page_count + 1)%Z in
  if decide (page_text = []) then mret (lists, page_count)
  else
    page_chunks ← lift (chunk_text fuel page_text 500 80);
    lists ← for_each (ingest_chunk name page_no) (enumerate 0 page_chunks) lists;
    mret (lists, page_count).

(** The batches of [col.add]. *)
Definition add_step (col : pystr * pystr) (ids docs : list pystr)
    (metas : list Meta) (vectors : list vector) (add_batch : Z) (_ : unit)
    (i : Z) : M unit :=
  col_add col (py_slice ids i (i + add_batch)) (py_slice docs i (i + add_batch))
    (py_slice metas i (i + add_batch)) (py_slice vectors i (i + add_batch)).

(** [ingest_single_pdf(pdf_path, vectordir, collection_name)]; the PDF at
    [pdf_path] is given by its file name and by the pages [PdfReader] reads
    from it. *)
Definition ingest_single_pdf `{Encoding, EmbeddingClient, Entropy} (fuel : nat)
    (name : pystr) (reader_pages : list (option pystr))
    (vectordir collection_name : pystr) : M Stats :=
  col ← get_or_create_collection vectordir collection_name;
  '(ids, docs, metas, page_count) ←
    for_each (ingest_page fuel name) (pdf_to_pages reader_pages) ([], [], [], 0%Z);
  if decide (docs = []) then mret {| pages := page_count; chunks := 0 |}
  else
    vectors ← embed_batches docs 64;
    let add_batch := 256%Z in
    let total := len docs in
    starts ← lift (py_range 0 total add_batch);
    _ ← for_each (add_step col ids docs metas vectors add_batch) starts ();
    mret {| pages := page_count; chunks := total |}.

(** The defaults of [vectordir] and [collection_name], which are also the
    database and collection of [answer_once.py] and of [delete_pdf]. *)
Definition CHROMA : pystr := py "chroma".
Definition EDU_TUTOR : pystr := py "edu-tutor".

(** *** answer_once.py: retrieval *)

(** [embed(q)]. *)
Definition embed `{EmbeddingClient} (q : pystr) : M vector :=
  data ← embeddings_create [q];
  lift (py_first data).

(** [res.get(key, [[]])]. *)
Definition res_get {A} (entry : option (list (list A))) : list (list A) :=
  default [[]] entry.

(** [not d] and [not m]: true for [None], for the empty string and for the
    empty dict. *)
Definition not_document (d : option pystr) : bool :=
  match d with
  | Some (_ :: _) => false
  | _ => true
  end.

Definition not_metadata (m : option Meta) : bool :=
  match m with
  | Some m' => bool_decide (m' = ∅)
  | None => true
  end.

(** The key [(m.get("source"), m.get("page"))]. *)
Abbreviation Key := (option MetaVal * option MetaVal)%type.

Definition dedup_key (m : Meta) : Key := (m !! "source", m !! "page").

(** The de-duplication loop of [retrieve] over [zip(docs, metas, ids)]; the
    state is [(uniq, out_docs, out_metas, out_ids)]. *)
Abbreviation Candidate := (option pystr * option Meta * pystr)%type.

Abbreviation Collected :=
  (gset Key * list pystr * list Meta * list pystr)%type.

Fixpoint retrieve_loop (k : Z) (candidates : list Candidate) (st : Collected)
  : Collected :=
  match candidates with
  | [] => st
  | (d, m, _id) :: rest =>
      if not_document d || not_metadata m then retrieve_loop k rest st
      else
        match d, m with
        | Some d', Some m' =>
            let '(uniq, out_docs, out_metas, out_ids) := st in
            let key := dedup_key m' in
            if decide (key ∈ uniq) then retrieve_loop k rest st
            else
              let st' := (uniq ∪ {[key]}, out_docs ++ [d'], out_metas ++ [m'],
                          out_ids ++ [_id]) in
              if decide (len (out_docs ++ [d']) = k) then st'
              else retrieve_loop k rest st'
        | _, _ => retrieve_loop k rest st
        end
  end.

Definition retrieve `{EmbeddingClient, VectorIndex} (q : pystr) (k : Z)
  : M (list pystr * list Meta * list pystr) :=
  qvec ← embed q;
  res ← col_query (CHROMA, EDU_TUTOR) qvec k;
  docs ← lift (py_first (res_get (res_documents res)));
  metas ← lift (py_first (res_get (res_metadatas res)));
  dists ← lift (py_first (res_get (res_distances res)));
  ids ← lift (py_first (res_get (res_ids res)));
  let '(uniq, out_docs, out_metas, out_ids) :=
    retrieve_loop k (zip (zip docs metas) ids) (∅, [], [], []) in
  mret (out_docs, out_metas, out_ids).

(** *** app.py: deleting a document *)

(** [if path.exists(): path.unlink()] for [path = DATA_DIR / filename]. *)
Definition unlink_if_exists (filename : pystr) : M unit :=
  λ w, if decide (filename ∈ data_dir w)
       then (Ok (), set_data_dir (data_dir w ∖ {[filename]}) w)
       else (Ok (), w).

(** The handler of [DELETE /pdfs/{filename}], once the caller is
    authenticated; it answers [{"ok": True}]. *)
Definition delete_pdf (filename : pystr) : M bool :=
  _ ← unlink_if_exists filename;
  col ← get_or_create_collection CHROMA EDU_TUTOR;
  _ ← col_delete col {[ "source" := MStr filename ]};
  mret true.

(** *** memory_sqlalchemy.py: the memory store *)

(** The rows of the tables of [models.py].  The primary key of a user (the
    email) and of a conversation (the id) is the key of its table; the
    message rows are kept in the order of their insertion.  A [DateTime]
    is a number. *)
Record UserRow := { username : pystr; password_hash : pystr }.

Record ConversationRow := {
  title : pystr;
  user_email : pystr;
  updated_at : Z;
}.

Record MessageRow := {
  msg_id : Z;
  conversation_id : pystr;
  role : pystr;
  content : pystr;
  sources : option pystr;
  created_at : Z;
}.

(** An entry [{"source": ..., "page": ..., "id": ...}] of the sources of
    an answer. *)
Abbreviation SourceRef := (MetaVal * MetaVal * pystr)%type.

(** The database, with the number of clock readings, of password hashes
    and of row insertions made so far. *)
Record Database := {
  users : gmap pystr UserRow;
  conversations : gmap pystr ConversationRow;
  messages : list MessageRow;
  clock_reads : nat;
  hashes_made : nat;
  rows_inserted : nat;
}.

Definition set_users (u : gmap pystr UserRow) (db : Database) : Database :=
  {| users := u; conversations := conversations db; messages := messages db;
     clock_reads := clock_reads db; hashes_made := hashes_made db;
     rows_inserted := rows_inserted db |}.
Definition set_conversations (c : gmap pystr ConversationRow) (db : Database)
  : Database :=
  {| users := users db; conversations := c; messages := messages db;
     clock_reads := clock_reads db; hashes_made := hashes_made db;
     rows_inserted := rows_inserted db |}.
Definition set_messages (m : list MessageRow) (db : Database) : Database :=
  {| users := users db; conversations := conversations db; messages := m;
     clock_reads := clock_reads db; hashes_made := hashes_made db;
     rows_inserted := rows_inserted db |}.
Definition set_clock_reads (n : nat) (db : Database) : Database :=
  {| users := users db; conversations := conversations db;
     messages := messages db; clock_reads := n;
     hashes_made := hashes_made db; rows_inserted := rows_inserted db |}.
Definition set_hashes_made (n : nat) (db : Database) : Database :=
  {| users := users db; conversations := conversations db;
     messages := messages db; clock_reads := clock_reads db;
     hashes_made := n; rows_inserted := rows_inserted db |}.
Definition set_rows_inserted (n : nat) (db : Database) : Database :=
  {| users := users db; conversations := conversations db;
     messages := messages db; clock_reads := clock_reads db;
     hashes_made := hashes_made db; rows_inserted := n |}.

(** [pwd_context]: the n-th hash it makes of a password (the salt is
    random), and the verification of a password against a hash. *)
Class PasswordContext := {
  pwd_hash : nat → pystr → pystr;
  pwd_verify : pystr → pystr → bool;
}.

(** [datetime.utcnow()]: the n-th reading of the clock. *)
Class Clock := {
  utcnow : nat → Z;
}.

(** [json.dumps] and [json.loads] on the sources of an answer. *)
Class Json := {
  dumps : list SourceRef → pystr;
  loads : pystr → list SourceRef;
}.

(** What [db.py] (the engine and its sessions) decides: whether foreign
    keys are enforced, the id given to the n-th inserted message row (the
    ids of the rows of the table being known), and the order of
    [ORDER BY updated_at DESC]. *)
Class DbEngine := {
  foreign_keys : bool;
  next_id : nat → list Z → Z;
  order_by_updated_desc :
    list (pystr * ConversationRow) → list (pystr * ConversationRow);
}.

(** Outcome of a session: committed, or the [IntegrityError] of a commit
    that the function does not catch. *)
Inductive db_result (A : Type) :=
  | Done (a : A)
  | IntegrityError.
Arguments Done {A} a.
Arguments IntegrityError {A}.

(** [ORDER BY] on the message id, whose values are distinct. *)
Fixpoint insert_by {A} (le : A → A → bool) (x : A) (l : list A) : list A :=
  match l with
  | [] => [x]
  | y :: l' => if le x y then x :: l else y :: insert_by le x l'
  end.

Definition sort_by {A} (le : A → A → bool) (l : list A) : list A :=
  foldr (insert_by le) [] l.

Definition order_by_id_asc : list MessageRow → list MessageRow :=
  sort_by (λ a b, (msg_id a <=? msg_id b)%Z).
Definition order_by_id_desc : list MessageRow → list MessageRow :=
  sort_by (λ a b, (msg_id b <=? msg_id a)%Z).

(** [create_user]: [True] when the row was committed, [False] when the
    commit raised [IntegrityError] (the email is taken) and was rolled
    back. *)
Definition create_user `{PasswordContext} (email username_ password : pystr)
    (db : Database) : bool * Database :=
  let hash := pwd_hash (hashes_made db) password in
  let db := set_hashes_made (S (hashes_made db)) db in
  match users db !! email with
  | None =>
      (true,
       set_users (<[email := {| username := username_;
                                password_hash := hash |}]> (users db)) db)
  | Some _ => (false, db)
  end.

(** [verify_user]: the dict [{"email": ..., "username": ...}], or [None]. *)
Definition verify_user `{PasswordContext} (email password : pystr)
    (db : Database) : option (pystr * pystr) :=
  match users db !! email with
  | Some user =>
      if pwd_verify password (password_hash user)
      then Some (email, username user)
      else None
  | None => None
  end.

Definition create_conversation `{Clock, DbEngine} (cid email title_ : pystr)
    (db : Database) : db_result unit * Database :=
  match conversations db !! cid with
  | Some _ => (Done (), db)
  | None =>
      let now := utcnow (clock_reads db) in
      let db := set_clock_reads (S (clock_reads db)) db in
      if foreign_keys && bool_decide (users db !! email = None)
      then (IntegrityError, db)
      else (Done (),
            set_conversations
              (<[cid := {| title := title_; user_email := email;
                           updated_at := now |}]> (conversations db)) db)
  end.

(** [get_all_conversations]: the dicts [{"id": ..., "title": ...}]. *)
Definition get_all_conversations `{DbEngine} (email : pystr) (db : Database)
  : list (pystr * pystr) :=
  (λ row, (row.1, title row.2))
    <$> order_by_updated_desc
          (filter (λ row, user_email row.2 = email)
             (map_to_list (conversations db))).

(** [delete_conversation]: the conversation goes with its messages (the
    cascade of the relationship), when it belongs to [email]. *)
Definition delete_conversation (cid email : pystr) (db : Database)
  : Database :=
  match conversations db !! cid with
  | Some conv =>
      if decide (user_email conv = email)
      then set_messages
             (filter (λ m, conversation_id m ≠ cid) (messages db))
             (set_conversations (delete cid (conversations db)) db)
      else db
  | None => db
  end.

(** [json.dumps(sources) if sources else None]. *)
Definition stored_sources `{Json} (sources_ : option (list SourceRef))
  : option pystr :=
  match sources_ with
  | Some (x :: l) => Some (dumps (x :: l))
  | _ => None
  end.

Definition add_message `{Clock, Json, DbEngine} (cid role_ content_ : pystr)
    (sources_ : option (list SourceRef)) (db : Database)
  : db_result unit * Database :=
  let msg := {| msg_id := next_id (rows_inserted db) (msg_id <$> messages db);
                conversation_id := cid; role := role_; content := content_;
                sources := stored_sources sources_;
                created_at := utcnow (clock_reads db) |} in
  let db := set_clock_reads (S (clock_reads db)) db in
  let db := set_rows_inserted (S (rows_inserted db)) db in
  match conversations db !! cid with
  | Some conv =>
      let conv := {| title := title conv; user_email := user_email conv;
                     updated_at := utcnow (clock_reads db) |} in
      let db := set_clock_reads (S (clock_reads db)) db in
      (Done (),
       set_messages (messages db ++ [msg])
         (set_conversations (<[cid := conv]> (conversations db)) db))
  | None =>
      if foreign_keys then (IntegrityError, db)
      else (Done (), set_messages (messages db ++ [msg]) db)
  end.

(** [get_messages]: the dicts [{"role": ..., "text": ..., "sources": ...}],
    with [json.loads(m.sources) if m.sources else None]. *)
Definition loaded_sources `{Json} (m : MessageRow) : option (list SourceRef) :=
  match sources m with
  | Some (c :: text) => Some (loads (c :: text))
  | _ => None
  end.

Definition get_messages `{Json} (cid : pystr) (db : Database)
  : list (pystr * pystr * option (list SourceRef)) :=
  (λ m, (role m, content m, loaded_sources m))
    <$> order_by_id_asc (filter (λ m, conversation_id m = cid) (messages db)).

(** ["\n".join(lines)]. *)
Definition py_join (sep : pystr) (lines : list pystr) : pystr :=
  match lines with
  | [] => []
  | line :: rest => line ++ concat ((λ l, sep ++ l) <$> rest)
  end.

Definition transcript_line (role_ content_ : pystr) : pystr :=
  if decide (role_ = py "user") then py "User: " ++ content_
  else py "Assistant: " ++ content_.

(** [transcript_text(cid, last_n)], for a limit that is not negative. *)
Definition transcript_text (cid : pystr) (last_n : nat) (db : Database)
  : pystr :=
  let rows :=
    reverse (take last_n
               (order_by_id_desc
                  (filter (λ m, conversation_id m = cid) (messages db)))) in
  py_join [10%N] ((λ m, transcript_line (role m) (content m)) <$> rows).

(** *** Collaborators for the examples *)

(** An embedder that answers every batch, with the length of each text as
    its one-dimensional vector. *)
Definition length_vector (t : pystr) : vector := [inject_Z (len t)].

Definition length_embedder : EmbeddingClient := {|
  embeddings_response _ batch := Some (length_vector <$> batch);
|}.

(** A store whose search answers with a fixed response. *)
Definition fixed_index (res : QueryResult) : VectorIndex := {|
  index_query _ _ _ := Ok res;
|}.

Definition fixed_entropy : Entropy := {|
  uuid4_hex n := py "0123456789abcdef0123456789abcdef";
|}.

(** A random source that counts: its n-th UUID starts with the digits of
    [n]. *)
Definition counting_entropy : Entropy := {|
  uuid4_hex n :=
    py_slice (py (pretty n) ++ py "00000000000000000000000000000000") 0 32;
|}.

(** A record of the document [source], page [page]. *)
Definition page_meta (source : string) (page : Z) : Meta :=
  {[ "source" := MStr (py source); "page" := MInt page ]}.

Definition page_record (id text source : string) (page : Z) : Rec := {|
  rec_id := py id; rec_document := Some (py text);
  rec_metadata := Some (page_meta source page); rec_embedding := [];
|}.

Definition response_of (candidates : list (string * string * Z * string))
  : QueryResult := {|
  res_ids := Some [(λ '(text, source, page, id), py id) <$> candidates];
  res_documents :=
    Some [(λ '(text, source, page, id), Some (py text)) <$> candidates];
  res_metadatas :=
    Some [(λ '(text, source, page, id), Some (page_meta source page))
            <$> candidates];
  res_distances := Some [(λ _, 0%Q) <$> candidates];
|}.

Definition empty_world : World := {|
  data_dir := ∅; chroma := ∅; embed_calls := []; uuids_drawn := 0;
|}.


(** The response of the example: four candidates, in similarity order,
    of the pages (A,1), (A,1), (A,2) and (B,1). *)
Definition dedup_example : QueryResult :=
  response_of [("first chunk of A1", "A", 1%Z, "id1");
               ("second chunk of A1", "A", 1%Z, "id2");
               ("chunk of A2", "A", 2%Z, "id3");
               ("chunk of B1", "B", 1%Z, "id4")].

(** Two candidates of two pages. *)
Definition two_pages : QueryResult :=
  response_of [("chunk of A1", "A", 1%Z, "id1");
               ("chunk of A2", "A", 2%Z, "id2")].

(** Two candidates of one page, the first one without a document. *)
Definition missing_document : QueryResult := {|
  res_ids := Some [[py "id1"; py "id2"]];
  res_documents := Some [[None; Some (py "chunk of A1")]];
  res_metadatas := Some [[Some (page_meta "A" 1); Some (page_meta "A" 1)]];
  res_distances := Some [[0%Q; 0%Q]];
|}.

(** One candidate, whose document is the empty string. *)
Definition empty_document : QueryResult :=
  response_of [("", "A", 1%Z, "id1")].

(** Four candidates: the second one, the only one of its page, has the
    empty string as document. *)
Definition mixed_candidates : QueryResult :=
  response_of [("first chunk of A1", "A", 1%Z, "id1");
               ("", "A", 2%Z, "id2");
               ("second chunk of A1", "A", 1%Z, "id3");
               ("chunk of B1", "B", 1%Z, "id4")].

(** The world after the one embedding call of a query. *)
Definition asked (q : pystr) : World :=
  set_embed_calls [[q]] empty_world.

(** An embedder whose first call answers and whose later calls fail. *)
Definition second_call_fails : EmbeddingClient := {|
  embeddings_response history batch :=
    match history with
    | [] => Some (length_vector <$> batch)
    | _ :: _ => None
    end;
|}.

(** [ingest_pdf_background(dest, user_email, filename)]: the ingestion of
    the uploaded file with the default database and collection; whatever
    it raises is caught and printed. *)
Definition ingest_pdf_background `{Encoding, EmbeddingClient, Entropy}
    (fuel : nat) (dest_name : pystr) (reader_pages : list (option pystr))
    (user_email filename : pystr) : M unit :=
  λ w, match ingest_single_pdf fuel dest_name reader_pages CHROMA EDU_TUTOR w with
       | (Ok stats, w') => (Ok (), w')
       | (Raise e, w') => (Ok (), w')
       | (Diverge, w') => (Diverge, w')
       end.

(** An embedder whose calls all fail. *)
Definition failing_embedder : EmbeddingClient := {|
  embeddings_response _ _ := None;
|}.

(** Collaborators of the memory store for the examples: a hash that
    prefixes the password with its number, the clock that counts its
    readings, a Json that knows one list of sources, and an engine without
    foreign keys that numbers the rows above the ids of the table. *)
Definition numbered_hashes : PasswordContext := {|
  pwd_hash n password := N.of_nat n :: password;
  pwd_verify password hash := bool_decide (tail hash = password);
|}.

Definition counting_clock : Clock := {| utcnow n := Z.of_nat n |}.

Definition one_source : list SourceRef :=
  [(MStr (py "a.pdf"), MInt 1, py "id1")].

Definition one_source_json : Json := {|
  dumps _ := py "[{...}]";
  loads _ := one_source;
|}.

Definition plain_engine : DbEngine := {|
  foreign_keys := false;
  next_id _ ids := (foldr Z.max 0 ids + 1)%Z;
  order_by_updated_desc :=
    sort_by (λ a b, (updated_at b.2 <=? updated_at a.2)%Z);
|}.

Definition empty_database : Database := {|
  users := ∅; conversations := ∅; messages := [];
  clock_reads := 0; hashes_made := 0; rows_inserted := 0;
|}.

(** The database of the examples: ann has two conversations, the second
    with a question and its answer. *)
Definition chat_database : Database := {|
  users := {[ py "ann@edu.org" := {| username := py "ann";
                                     password_hash := 0%N :: py "pw" |} ]};
  conversations :=
    <[ py "c1" := {| title := py "Limits"; user_email := py "ann@edu.org";
                     updated_at := 5 |} ]>
      {[ py "c0" := {| title := py "New Chat"; user_email := py "ann@edu.org";
                       updated_at := 0 |} ]};
  messages :=
    [ {| msg_id := 1; conversation_id := py "c1"; role := py "user";
         content := py "hi"; sources := None; created_at := 2 |};
      {| msg_id := 2; conversation_id := py "c1"; role := py "assistant";
         content := py "hello"; sources := Some (py "[{...}]");
         created_at := 4 |} ];
  clock_reads := 6; hashes_made := 1; rows_inserted := 2;
|}.

(** *** Notions used in the statements *)

(** [ceil(a / b)] for a positive [b]. *)
Definition ceil_div (a b : Z) : Z := ((a + b - 1) / b)%Z.

(** The first and the last [n] tokens of a window (all of it when it holds
    fewer). *)
Definition first_tokens (n : Z) (w : list Z) : list Z := take (Z.to_nat n) w.
Definition last_tokens (n : Z) (w : list Z) : list Z :=
  drop (length w - Z.to_nat n) w.

(** The state of the loop of [chunk_text] after [m] runs of its body. *)
Definition chunk_state_at {A} (dec : list Z → A) (tokens : list Z)
    (max_tokens overlap : Z) (m : nat) : Z * list A :=
  Nat.iter m (chunk_body dec tokens max_tokens overlap) (0%Z, []).

(** A string in which every whitespace character is a space that is not
    followed by another whitespace character. *)
Fixpoint collapsed (s : pystr) : bool :=
  match s with
  | [] => true
  | c :: s' =>
      (if isspace c
       then (c =? SPACE)%N
            && match s' with c' :: _ => negb (isspace c') | [] => true end
       else true)
      && collapsed s'
  end.

(** No two whitespace characters in a row; no whitespace at either end. *)
Definition no_whitespace_run (s : pystr) : Prop :=
  ∀ (i : nat) c c', s !! i = Some c → s !! S i = Some c' →
    isspace c = true → isspace c' = false.

Definition no_outer_whitespace (s : pystr) : Prop :=
  (∀ c, head s = Some c → isspace c = false)
  ∧ (∀ c, last s = Some c → isspace c = false).

(** The first [count] batches of [texts]: the slices
    [texts[j*batch_size : j*batch_size + batch_size]]. *)
Definition batches_of (texts : list pystr) (batch_size : Z) (count : nat)
  : list (list pystr) :=
  (λ j : nat, py_slice texts (Z.of_nat j * batch_size)
                (Z.of_nat j * batch_size + batch_size))
    <$> seq 0 count.

(** Lines 18 to 29 of [retrieve] run without an exception: the embedding
    call answers, the store answers, and the response holds the lists
    [docs], [metas] and [ids] for the query; [w'] is the world they leave. *)
Definition store_answers `{EmbeddingClient, VectorIndex} (q : pystr) (k : Z)
    (w w' : World) (docs : list (option pystr)) (metas : list (option Meta))
    (ids : list pystr) : Prop :=
  ∃ qvec res dists,
    embed q w = (Ok qvec, w')
    ∧ col_query (CHROMA, EDU_TUTOR) qvec k w' = (Ok res, w')
    ∧ py_first (res_get (res_documents res)) = Ok docs
    ∧ py_first (res_get (res_metadatas res)) = Ok metas
    ∧ py_first (res_get (res_distances res)) = Ok dists
    ∧ py_first (res_get (res_ids res)) = Ok ids.

(** A candidate that passes the guard [if not d or not m: continue], with
    its document and its metadata; [None] for one that is skipped. *)
Definition usable (c : Candidate) : option (pystr * Meta * pystr) :=
  let '(d, m, _id) := c in
  if not_document d || not_metadata m then None
  else
    match d, m with
    | Some d', Some m' => Some (d', m', _id)
    | _, _ => None
    end.

Definition entry_key (x : pystr * Meta * pystr) : Key := dedup_key x.1.2.

(** First occurrence wins: the elements of [l] whose key is neither in
    [seen] nor the key of an earlier element of [l], in the order of [l]. *)
Fixpoint first_per_key {A} (key : A → Key) (seen : gset Key) (l : list A)
  : list A :=
  match l with
  | [] => []
  | x :: rest =>
      if decide (key x ∈ seen) then first_per_key key seen rest
      else x :: first_per_key key (seen ∪ {[key x]}) rest
  end.

(** The (source, page) keys of the candidates that are not skipped. *)
Definition unique_keys (candidates : list Candidate) : gset Key :=
  list_to_set (entry_key <$> omap usable candidates).

(** In the words of the specification: two metadata are of one page when
    they agree on [source] and on [page], and [distinct_pages] is the
    number of pages of a list of metadata. *)
Definition same_page (m1 m2 : Meta) : Prop :=
  m1 !! "source" = m2 !! "source" ∧ m1 !! "page" = m2 !! "page".

#[global] Instance same_page_dec : RelDecision same_page.
Proof. intros m1 m2. unfold same_page. apply _. Defined.

Fixpoint distinct_pages (ms : list Meta) : nat :=
  match ms with
  | [] => 0
  | m :: rest =>
      if decide (Exists (same_page m) rest) then distinct_pages rest
      else S (distinct_pages rest)
  end.

(** The metadata of a candidate whose document and metadata are not
    missing: neither is [None] ([present]); or neither is [None], the
    empty string or the empty dict ([filled]). *)
Definition present (c : Candidate) : option Meta :=
  match c with
  | (Some _, Some m, _) => Some m
  | _ => None
  end.

Definition filled (c : Candidate) : option Meta :=
  match c with
  | (Some d, Some m, _) => if decide (d ≠ [] ∧ m ≠ ∅) then Some m else None
  | _ => None
  end.

(** The [source] of a record: the entry of that name in its metadata. *)
Definition rec_source (r : Rec) : option MetaVal :=
  m ← rec_metadata r; m !! "source".

(** A store seeded with chunks of two documents. *)
Definition two_documents : World :=
  set_chroma {[ (CHROMA, EDU_TUTOR) :=
                  [page_record "id1" "chunk of A1" "a.pdf" 1;
                   page_record "id2" "chunk of B1" "b.pdf" 1;
                   page_record "id3" "chunk of A2" "a.pdf" 2;
                   page_record "id4" "chunk of B2" "b.pdf" 2] ]} empty_world.

(** How a run can end without a value. *)
Inductive abort := Raised (e : exn) | Diverged.

Definition abort_of {A} (r : result A) : option abort :=
  match r with
  | Ok _ => None
  | Raise e => Some (Raised e)
  | Diverge => Some Diverged
  end.

(** [m] takes a world to one that [R] relates to it, and ends without a
    value only in the ways [E] allows. *)
Definition confined {A} (R : World → World → Prop) (E : abort → Prop)
    (m : M A) : Prop :=
  ∀ w, R w (m w).2 ∧ ∀ a, abort_of (m w).1 = Some a → E a.

(** Every collection holds the same records, and the data directory the
    same files. *)
Definition same_records (w w' : World) : Prop :=
  (∀ col, collection_records col w' = collection_records col w)
  ∧ data_dir w' = data_dir w.

(** The collection [col] holds its records followed by new ones, and
    nothing else changed in the store or the data directory. *)
Definition appends (col : pystr * pystr) (w w' : World) : Prop :=
  (∃ added, collection_records col w' = collection_records col w ++ added)
  ∧ (∀ col', col' ≠ col →
       collection_records col' w' = collection_records col' w)
  ∧ data_dir w' = data_dir w.

(** The metadata [ingest_single_pdf] gives the chunks of a page. *)
Definition chunk_meta (name : pystr) (page_no : Z) : Meta :=
  {[ "source" := MStr name; "page" := MInt page_no ]}.

(** [cs] are the chunks ingestion makes of the page [entry]: none for a
    page without text, and what [chunk_text(page_text, 500, 80)] returns
    otherwise. *)
Definition page_chunks_are `{Encoding} (fuel : nat) (entry : Z * pystr)
    (cs : list pystr) : Prop :=
  if decide (entry.2 = []) then cs = []
  else chunk_text fuel entry.2 500 80 = Ok cs.

(** The metadata of the chunks [css] of the pages [entries]. *)
Definition pages_metas (name : pystr) (entries : list (Z * pystr))
    (css : list (list pystr)) : list Meta :=
  concat (zip_with (λ entry cs, replicate (length cs) (chunk_meta name entry.1))
            entries css).

(** The ids [ingest_single_pdf] gives the chunks [css] of the pages
    [entries], in page and chunk order, when [drawn] UUIDs were drawn
    before. *)
Fixpoint cohort_ids `{Entropy} (name : pystr) (entries : list (Z * pystr))
    (css : list (list pystr)) (drawn : nat) : list pystr :=
  match entries, css with
  | entry :: entries', cs :: css' =>
      imap (λ j _, chunk_id name entry.1 (Z.of_nat j) (uuid4_hex (drawn + j)))
        cs
      ++ cohort_ids name entries' css' (drawn + length cs)
  | _, _ => []
  end.

(** The message rows, in the order of their insertion, have ascending
    ids; and the engine gives a new row an id above those of the table. *)
Definition ids_ascending (db : Database) : Prop :=
  StronglySorted (λ a b, (msg_id a < msg_id b)%Z) (messages db).

Definition fresh_ids `{DbEngine} : Prop :=
  ∀ n ids, Forall (λ i, (i < next_id n ids)%Z) ids.

(** [ORDER BY updated_at DESC] returns the rows it is given, the later
    updated first. *)
Definition orders_by_update `{DbEngine} : Prop :=
  ∀ rows,
    order_by_updated_desc rows ≡ₚ rows
    ∧ StronglySorted (λ a b, (updated_at b.2 ≤ updated_at a.2)%Z)
        (order_by_updated_desc rows).

(** ** Part II: properties *)

(** *** Slices, ranges and loops *)

Section python.
Context {A : Type}.
Implicit Types l : list A.

Lemma len_nonneg l : (0 ≤ len l)%Z.
Proof. unfold len. lia. Qed.

(** A slice [l[a:a+n]] with [a] and [n] not negative. *)
Lemma py_slice_window l (a n : Z) :
  (0 ≤ a)%Z → (0 ≤ n)%Z →
  py_slice l a (a + n) = take (Z.to_nat n) (drop (Z.to_nat a) l).
Proof.
  intros Ha Hn. unfold py_slice, slice_bound, len.
  rewrite !decide_False by lia.
  destruct (decide (Z.of_nat (length l) ≤ a)%Z) as [Hge|Hlt].
  - rewrite !(drop_ge l) by lia. by rewrite !take_nil.
  - rewrite (Z.min_l a) by lia.
    destruct (decide (a + n ≤ Z.of_nat (length l))%Z).
    + rewrite Z.min_l by lia. f_equal. lia.
    + rewrite Z.min_r by lia.
      rewrite !take_ge; [done | rewrite length_drop; lia..].
Qed.


Lemma py_while_exact {S} (cond : S → bool) (body : S → S) (n : nat) (s : S) :
  (∀ m, m < n → cond (Nat.iter m body s) = true) →
  cond (Nat.iter n body s) = false →
  ∀ fuel, py_while cond body fuel s
          = if decide (fuel ≤ n) then Diverge else Ok (Nat.iter n body s).
Proof.
  revert s. induction n as [|n IH]; intros s Hlt Hn fuel.
  - destruct fuel as [|fuel]; cbn [py_while] in *; [done|].
    change (cond s = false) in Hn. rewrite Hn. case_decide; [lia | done].
  - destruct fuel as [|fuel]; cbn [py_while]; [done|].
    pose proof (Hlt 0 ltac:(lia)) as H0. change (cond s = true) in H0.
    rewrite H0, IH.
    + rewrite <- Nat.iter_succ_r. repeat case_decide; done || lia.
    + intros m Hm. rewrite <- Nat.iter_succ_r. apply Hlt. lia.
    + by rewrite <- Nat.iter_succ_r.
Qed.

Lemma py_while_diverges {S} (cond : S → bool) (body : S → S) (I : S → Prop) :
  (∀ s, I s → cond s = true ∧ I (body s)) →
  ∀ fuel s, I s → py_while cond body fuel s = Diverge.
Proof.
  intros Hinv fuel. induction fuel as [|fuel IH]; intros s Hs; simpl; [done|].
  destruct (Hinv s Hs) as [-> Hs']. by apply IH.
Qed.
End python.

(** The primitives on the values the source meets. *)
Example py_slice_end : py_slice [1; 2; 3; 4; 5] 4 9 = [5].
Proof. reflexivity. Qed.

Example py_slice_negative : py_slice [1; 2; 3; 4; 5] (-2) 5 = [4; 5].
Proof. reflexivity. Qed.

Example py_range_batches : py_range 0 130 64 = Ok [0; 64; 128]%Z.
Proof. reflexivity. Qed.

Example py_range_no_step : py_range 0 130 0 = Raise ValueError.
Proof. reflexivity. Qed.

(** *** chunk_text *)

Section chunker.
Context {A : Type} (dec : list Z → A).
Implicit Types tokens : list Z.
Implicit Types max_tokens overlap : Z.

Lemma chunk_state_at_eq tokens max_tokens overlap (m : nat) :
  chunk_state_at dec tokens max_tokens overlap m
  = ((Z.of_nat m * (max_tokens - overlap))%Z,
     (λ j : nat, dec (py_slice tokens (Z.of_nat j * (max_tokens - overlap))
                        (Z.of_nat j * (max_tokens - overlap) + max_tokens)))
       <$> seq 0 m).
Proof.
  unfold chunk_state_at. induction m as [|m IH]; [done|].
  rewrite Nat.iter_succ, IH. cbn [chunk_body].
  rewrite seq_S, fmap_app. simpl. f_equal. lia.
Qed.

(** The number of runs of the loop body for a valid configuration. *)
Lemma stride_count_spec (L stride : Z) :
  (0 ≤ L)%Z → (0 < stride)%Z →
  let n := Z.to_nat (ceil_div L stride) in
  (∀ m : nat, m < n → (Z.of_nat m * stride < L)%Z)
  ∧ (L ≤ Z.of_nat n * stride)%Z.
Proof.
  intros HL Hs n. subst n. unfold ceil_div.
  pose proof (Z.div_mod (L + stride - 1) stride ltac:(lia)) as Hdm.
  pose proof (Z.mod_pos_bound (L + stride - 1) stride Hs) as Hmb.
  assert (0 ≤ (L + stride - 1) / stride)%Z as Hq
    by (apply Z.div_pos; lia).
  split.
  - intros m Hm. nia.
  - rewrite Z2Nat.id by done. nia.
Qed.

Lemma chunk_loop_valid tokens max_tokens overlap (fuel : nat) :
  (0 ≤ overlap < max_tokens)%Z →
  let n := Z.to_nat (ceil_div (len tokens) (max_tokens - overlap)) in
  chunk_loop dec fuel tokens max_tokens overlap
  = if decide (fuel ≤ n) then Diverge
    else Ok (chunk_state_at dec tokens max_tokens overlap n).2.
Proof.
  intros Hcfg n. unfold chunk_loop.
  destruct (stride_count_spec (len tokens) (max_tokens - overlap))
    as [Hlt Hge]; [apply len_nonneg | lia |]. fold n in Hlt, Hge.
  rewrite (py_while_exact _ _ n).
  - by case_decide.
  - intros m Hm. fold (chunk_state_at dec tokens max_tokens overlap m).
    rewrite chunk_state_at_eq. unfold chunk_cond. simpl.
    apply bool_decide_eq_true. by apply Hlt.
  - fold (chunk_state_at dec tokens max_tokens overlap n).
    rewrite chunk_state_at_eq. unfold chunk_cond. simpl.
    apply bool_decide_eq_false. lia.
Qed.
End chunker.

Section chunk_text.
Context `{Encoding}.
Implicit Types text : pystr.
Implicit Types max_tokens overlap : Z.

(** The chunks are the decoded windows. *)
Lemma chunk_state_decode tokens max_tokens overlap (m : nat) :
  (chunk_state_at decode tokens max_tokens overlap m).2
  = decode <$> (chunk_state_at id tokens max_tokens overlap m).2.
Proof.
  rewrite !chunk_state_at_eq. simpl. rewrite <- list_fmap_compose.
  by apply list_fmap_ext.
Qed.

Lemma chunk_windows_valid tokens max_tokens overlap :
  (0 ≤ overlap < max_tokens)%Z →
  let n := Z.to_nat (ceil_div (len tokens) (max_tokens - overlap)) in
  let windows :=
    (λ j : nat, py_slice tokens (Z.of_nat j * (max_tokens - overlap))
                  (Z.of_nat j * (max_tokens - overlap) + max_tokens))
      <$> seq 0 n in
  ∀ fuel, chunk_windows fuel tokens max_tokens overlap
          = (if decide (fuel ≤ n) then Diverge else Ok windows)
          ∧ chunk_loop decode fuel tokens max_tokens overlap
            = (if decide (fuel ≤ n) then Diverge else Ok (decode <$> windows)).
Proof.
  intros Hcfg n windows fuel. unfold chunk_windows.
  rewrite !chunk_loop_valid by done. fold n.
  rewrite chunk_state_decode, chunk_state_at_eq. done.
Qed.

(** C6: for [0 <= overlap < max_tokens] the loop of [chunk_text] runs its
    body exactly [ceil(len(tokens) / (max_tokens - overlap))] times: the
    loop condition holds before each of these runs and fails after the
    last one, the window start after [m] runs is
    [m * (max_tokens - overlap)], no run happens for an empty token
    stream, and [chunk_text] returns (one chunk per run) as soon as the
    fuel exceeds that count. *)
Theorem chunk_text_terminates text max_tokens overlap :
  (0 ≤ overlap < max_tokens)%Z →
  let tokens := encode text in
  let stride := (max_tokens - overlap)%Z in
  let n := Z.to_nat (ceil_div (len tokens) stride) in
  let state := chunk_state_at decode tokens max_tokens overlap in
  (∀ m : nat, (state m).1 = (Z.of_nat m * stride)%Z)
  ∧ (∀ m : nat, m < n → chunk_cond tokens (state m) = true)
  ∧ chunk_cond tokens (state n) = false
  ∧ (∀ fuel, chunk_text fuel text max_tokens overlap
             = if decide (fuel ≤ n) then Diverge else Ok (state n).2)
  ∧ length (state n).2 = n
  ∧ (tokens = [] → n = 0).
Proof.
  intros Hcfg tokens stride n state.
  destruct (stride_count_spec (len tokens) stride) as [Hlt Hge];
    [apply len_nonneg | unfold stride; lia |]. fold n in Hlt, Hge.
  assert (∀ m : nat, (state m).1 = (Z.of_nat m * stride)%Z) as Hi.
  { intros m. unfold state. by rewrite chunk_state_at_eq. }
  split_and!.
  - done.
  - intros m Hm. unfold chunk_cond. rewrite Hi.
    apply bool_decide_eq_true. by apply Hlt.
  - unfold chunk_cond. rewrite Hi. apply bool_decide_eq_false. lia.
  - intros fuel. unfold chunk_text. by rewrite chunk_loop_valid.
  - unfold state. rewrite chunk_state_at_eq. simpl.
    by rewrite length_fmap, length_seq.
  - intros Hnil. unfold n. rewrite Hnil. unfold ceil_div, len. simpl.
    rewrite Z.div_small; lia.
Qed.

End chunk_text.

Section chunk_text_overlap.
Context `{Encoding}.
Implicit Types text : pystr.
Implicit Types max_tokens overlap : Z.

(** Two consecutive windows, as slices of the token stream. *)
Lemma consecutive_windows (tokens : list Z) (a stride over : nat) :
  take over (take (stride + over) (drop (a + stride) tokens))
  = drop stride (take (stride + over) (drop a tokens)).
Proof.
  rewrite take_take, Nat.min_l by lia.
  by rewrite <- take_drop_commute, drop_drop.
Qed.

(** C5 (amended): for [0 <= overlap < max_tokens], when [chunk_text]
    produces a window i and a successor window i+1, the first [overlap]
    tokens of window i+1 are the tokens of window i from offset
    [max_tokens - overlap] on; they are the last [overlap] tokens of
    window i whenever window i holds [max_tokens] tokens. *)
Theorem chunk_windows_overlap text max_tokens overlap fuel windows
    (i : nat) (w w' : list Z) :
  (0 ≤ overlap < max_tokens)%Z →
  chunk_windows fuel (encode text) max_tokens overlap = Ok windows →
  windows !! i = Some w →
  windows !! S i = Some w' →
  chunk_text fuel text max_tokens overlap = Ok (decode <$> windows)
  ∧ first_tokens overlap w' = drop (Z.to_nat (max_tokens - overlap)) w
  ∧ (len w = max_tokens → last_tokens overlap w = first_tokens overlap w').
Proof.
  intros Hcfg Hrun Hw Hw'.
  destruct (chunk_windows_valid (encode text) max_tokens overlap Hcfg fuel)
    as [Hwin Htext].
  rewrite Hwin in Hrun. case_decide; [done|].
  injection Hrun as <-.
  apply list_lookup_fmap_Some in Hw as (j & -> & Hj).
  apply list_lookup_fmap_Some in Hw' as (j' & -> & Hj').
  apply lookup_seq in Hj as [-> _]. apply lookup_seq in Hj' as [-> _].
  simpl.
  set (stride := Z.to_nat (max_tokens - overlap)).
  set (over := Z.to_nat overlap).
  set (a := Z.to_nat (Z.of_nat i * (max_tokens - overlap))).
  assert (first_tokens overlap
            (py_slice (encode text) (Z.of_nat (S i) * (max_tokens - overlap))
               (Z.of_nat (S i) * (max_tokens - overlap) + max_tokens))
          = drop stride
              (py_slice (encode text) (Z.of_nat i * (max_tokens - overlap))
                 (Z.of_nat i * (max_tokens - overlap) + max_tokens)))
    as Hfirst.
  { unfold first_tokens. rewrite !py_slice_window by nia.
    replace (Z.to_nat max_tokens) with (stride + over) by (unfold stride, over; lia).
    replace (Z.to_nat (Z.of_nat (S i) * (max_tokens - overlap)))
      with (a + stride) by (unfold a, stride; nia).
    apply consecutive_windows. }
  split_and!; [done | done |].
  intros Hfull. rewrite Hfirst. unfold last_tokens. f_equal.
  unfold len in Hfull. unfold stride. lia.
Qed.

(** Without a token the loop is not entered, whatever the configuration. *)
Lemma chunk_text_no_token text max_tokens overlap (fuel : nat) :
  encode text = [] → 0 < fuel →
  chunk_text fuel text max_tokens overlap = Ok [].
Proof.
  intros Hnil Hfuel. destruct fuel as [|fuel]; [lia|].
  unfold chunk_text, chunk_loop. by rewrite Hnil.
Qed.

(** With a token and a stride that is not positive the loop condition
    holds for ever. *)
Lemma chunk_text_stuck text max_tokens overlap (fuel : nat) :
  (max_tokens ≤ overlap)%Z → encode text ≠ [] →
  chunk_text fuel text max_tokens overlap = Diverge.
Proof.
  intros Hcfg Hne. unfold chunk_text, chunk_loop.
  rewrite (py_while_diverges _ _ (λ st, (st.1 ≤ 0)%Z)); [done | | simpl; lia].
  intros [i chunks] Hi. simpl in *. split; [|lia].
  unfold chunk_cond. apply bool_decide_eq_true. simpl.
  unfold len. destruct (encode text); [done | simpl; lia].
Qed.

(** C1 (amended): [chunk_text] does not validate its configuration.  With
    [overlap >= max_tokens], once the tokenizer has encoded the text, it
    returns the empty list when the text has no tokens, and the loop is
    entered and never exits when the text has a token. *)
Theorem chunk_text_unvalidated text max_tokens overlap :
  (max_tokens ≤ overlap)%Z →
  (encode text = [] →
   ∀ fuel, 0 < fuel → chunk_text fuel text max_tokens overlap = Ok [])
  ∧ (encode text ≠ [] →
     ∀ fuel, chunk_text fuel text max_tokens overlap = Diverge).
Proof.
  intros Hcfg. split.
  - intros Hnil fuel Hfuel. by apply chunk_text_no_token.
  - intros Hne fuel. by apply chunk_text_stuck.
Qed.
End chunk_text_overlap.

(** C1 fails as stated: with [overlap = max_tokens = 5], [chunk_text]
    rejects nothing; it returns normally for the empty text and never
    leaves its loop for the text "a". *)
Lemma chunk_text_unvalidated_counterexample :
  (5 ≤ 5)%Z
  ∧ @chunk_text codepoint_encoding 1 (py "") 5 5 = Ok []
  ∧ ∀ fuel, @chunk_text codepoint_encoding fuel (py "a") 5 5 = Diverge.
Proof.
  split_and!; [lia | done |].
  intros fuel. by apply chunk_text_stuck.
Qed.

(** The amended C1 at [overlap = 7 > max_tokens = 5] and the text "ab". *)
Lemma chunk_text_unvalidated_witness :
  (5 ≤ 7)%Z
  ∧ ∀ fuel, @chunk_text codepoint_encoding fuel (py "ab") 5 7 = Diverge.
Proof.
  split; [lia|].
  destruct (@chunk_text_unvalidated codepoint_encoding (py "ab") 5 7
              ltac:(lia)) as (_ & Hloop).
  intros fuel. apply Hloop. discriminate.
Defined.

(** C5 fails as stated: for the five tokens of "abcde" with
    [max_tokens = 4] and [overlap = 2] the windows are [abcd], [cde] and
    [e]; the last two tokens of [cde] are not the first two of [e]. *)
Lemma chunk_windows_overlap_counterexample :
  (0 ≤ 2 < 4)%Z
  ∧ chunk_windows 4 (@encode codepoint_encoding (py "abcde")) 4 2
    = Ok [[97; 98; 99; 100]; [99; 100; 101]; [101]]%Z
  ∧ last_tokens 2 [99; 100; 101]%Z ≠ first_tokens 2 [101]%Z.
Proof. split; [lia | split; [done | discriminate]]. Qed.

(** The amended C5 on the same input, at the windows [abcd] and [cde]. *)
Lemma chunk_windows_overlap_witness :
  (0 ≤ 2 < 4)%Z
  ∧ last_tokens 2 [97; 98; 99; 100]%Z = first_tokens 2 [99; 100; 101]%Z.
Proof.
  split; [lia|].
  destruct (@chunk_windows_overlap codepoint_encoding (py "abcde") 4 2 4
              [[97; 98; 99; 100]; [99; 100; 101]; [101]]%Z 0
              [97; 98; 99; 100]%Z [99; 100; 101]%Z
              ltac:(lia) eq_refl eq_refl eq_refl) as (_ & _ & Hfull).
  apply Hfull. reflexivity.
Defined.

(** C6 on "abcde" with [max_tokens = 4] and [overlap = 2]: three runs. *)
Lemma chunk_text_terminates_witness :
  (0 ≤ 2 < 4)%Z
  ∧ @chunk_text codepoint_encoding 3 (py "abcde") 4 2 = Diverge
  ∧ @chunk_text codepoint_encoding 4 (py "abcde") 4 2
    = Ok [py "abcd"; py "cde"; py "e"].
Proof.
  split; [lia|].
  destruct (@chunk_text_terminates codepoint_encoding (py "abcde") 4 2
              ltac:(lia)) as (_ & _ & _ & Hrun & _).
  split; [exact (Hrun 3) | exact (Hrun 4)].
Defined.



(** *** clean *)

Section dropwhile.
Context {A : Type} (p : A → bool).
Implicit Types l k : list A.

Lemma dropwhile_head l x :
  head (dropwhile p l) = Some x → p x = false.
Proof.
  induction l as [|y l IH]; simpl; [done|].
  destruct (p y) eqn:Hy; [done|]. simpl. by intros [= <-].
Qed.

Lemma dropwhile_id l :
  (∀ x, head l = Some x → p x = false) → dropwhile p l = l.
Proof. destruct l as [|y l]; simpl; [done|]. intros Hl. by rewrite Hl. Qed.

Lemma dropwhile_idemp l : dropwhile p (dropwhile p l) = dropwhile p l.
Proof. apply dropwhile_id, dropwhile_head. Qed.

Lemma dropwhile_suffix l : ∃ k, l = k ++ dropwhile p l.
Proof.
  induction l as [|y l [k IH]]; simpl; [by exists []|].
  destruct (p y).
  - exists (y :: k). simpl. by f_equal.
  - by exists [].
Qed.

Lemma dropwhile_snoc l x :
  p x = false → dropwhile p (l ++ [x]) = dropwhile p l ++ [x].
Proof.
  intros Hx. induction l as [|y l IH]; simpl; [by rewrite Hx|].
  by destruct (p y).
Qed.
End dropwhile.

Example clean_page : clean (py "  token   aware  chunking ") = py "token aware chunking".
Proof. reflexivity. Qed.

Example clean_line_breaks : clean [10; 97; 9; 160; 98; 13]%N = py "a b".
Proof. reflexivity. Qed.

Section clean.
Implicit Types s : pystr.

Lemma rstrip_prefix s : ∃ k, s = rstrip s ++ k.
Proof.
  unfold rstrip. destruct (dropwhile_suffix isspace (reverse s)) as [k Hk].
  exists (reverse k).
  by rewrite <- reverse_app, <- Hk, reverse_involutive.
Qed.

Lemma rstrip_idemp s : rstrip (rstrip s) = rstrip s.
Proof. unfold rstrip. by rewrite reverse_involutive, dropwhile_idemp. Qed.

Lemma rstrip_last s c : last (rstrip s) = Some c → isspace c = false.
Proof. unfold rstrip. rewrite last_reverse. apply dropwhile_head. Qed.

Lemma rstrip_cons c s :
  isspace c = false → ∃ r, rstrip (c :: s) = c :: r.
Proof.
  intros Hc. unfold rstrip. rewrite reverse_cons, dropwhile_snoc by done.
  rewrite reverse_app. simpl. eauto.
Qed.

Lemma strip_head s c : head (strip s) = Some c → isspace c = false.
Proof.
  unfold strip, lstrip.
  pose proof (dropwhile_head isspace s) as Hhead.
  destruct (dropwhile isspace s) as [|x t]; [done|].
  destruct (rstrip_cons x t) as [r ->]; [by apply Hhead|].
  simpl. intros [= <-]. by apply Hhead.
Qed.

Lemma strip_idemp s : strip (strip s) = strip s.
Proof.
  unfold strip at 1. unfold lstrip.
  rewrite dropwhile_id by apply strip_head.
  unfold strip. apply rstrip_idemp.
Qed.

Lemma collapsed_app s1 s2 :
  collapsed (s1 ++ s2) = true → collapsed s1 = true ∧ collapsed s2 = true.
Proof.
  induction s1 as [|c s1 IH]; simpl; [done|].
  intros [Hc Hrest]%andb_true_iff. destruct (IH Hrest) as [H1 H2].
  split; [|done]. rewrite H1, andb_true_r.
  destruct (isspace c); [|done].
  apply andb_true_iff in Hc as [-> Hnext]. by destruct s1.
Qed.

Lemma strip_collapsed s : collapsed s = true → collapsed (strip s) = true.
Proof.
  intros Hs. unfold strip, lstrip.
  destruct (dropwhile_suffix isspace s) as [k Hk].
  destruct (rstrip_prefix (dropwhile isspace s)) as [k' Hk'].
  rewrite Hk in Hs. apply collapsed_app in Hs as [_ Hs].
  rewrite Hk' in Hs. by apply collapsed_app in Hs as [Hs _].
Qed.

Lemma sub_whitespace_collapsed s : collapsed (sub_whitespace s) = true.
Proof.
  induction s as [|c s IH]; [done|].
  cbn [sub_whitespace]. destruct (isspace c) eqn:Hc.
  - destruct s as [|c' s]; [done|].
    destruct (isspace c') eqn:Hc'; [done|].
    cbn [sub_whitespace] in *. rewrite Hc' in *.
    cbn [collapsed]. cbn [collapsed] in IH. by rewrite Hc' in *.
  - cbn [collapsed]. by rewrite Hc, IH.
Qed.

Lemma sub_whitespace_id s : collapsed s = true → sub_whitespace s = s.
Proof.
  induction s as [|c s IH]; [done|].
  cbn [collapsed sub_whitespace]. intros [Hc Hs]%andb_true_iff.
  rewrite (IH Hs). destruct (isspace c); [|done].
  apply andb_true_iff in Hc as [->%N.eqb_eq Hnext].
  destruct s as [|c' s]; [done|]. by destruct (isspace c').
Qed.

Lemma collapsed_no_run s : collapsed s = true → no_whitespace_run s.
Proof.
  induction s as [|c s IH]; intros Hs i x y Hx Hy Hsp; [done|].
  cbn [collapsed] in Hs. apply andb_true_iff in Hs as [Hc Hs].
  destruct i as [|i]; simpl in *.
  - injection Hx as ->. rewrite Hsp in Hc.
    apply andb_true_iff in Hc as [_ Hnext].
    destruct s as [|c' s]; [done|]. injection Hy as ->.
    by apply negb_true_iff.
  - by apply (IH Hs i x y).
Qed.

Lemma clean_collapsed s : collapsed (clean s) = true.
Proof. apply strip_collapsed, sub_whitespace_collapsed. Qed.

(** C10: [clean] is idempotent, and its output has no run of two or more
    whitespace characters and no whitespace at either end. *)
Theorem clean_idempotent s :
  clean (clean s) = clean s
  ∧ no_whitespace_run (clean s)
  ∧ no_outer_whitespace (clean s).
Proof.
  split_and!.
  - unfold clean at 1. rewrite sub_whitespace_id by apply clean_collapsed.
    apply strip_idemp.
  - apply collapsed_no_run, clean_collapsed.
  - split; intros c.
    + apply strip_head.
    + apply rstrip_last.
Qed.
End clean.

(** *** The monad of effects *)

Lemma M_bind_ok {A B} (m : M A) (f : A → M B) (w w' : World) (a : A) :
  m w = (Ok a, w') → (m ≫= f) w = f a w'.
Proof. intros Hm. unfold mbind, M_mbind, M_bind. by rewrite Hm. Qed.

Lemma for_each_cons {A S} (body : S → A → M S) x l (s : S) w :
  for_each body (x :: l) s w = (body s x ≫= for_each body l) w.
Proof. done. Qed.

Lemma set_embed_calls_twice l1 l2 w :
  set_embed_calls l2 (set_embed_calls l1 w) = set_embed_calls l2 w.
Proof. done. Qed.

Lemma set_embed_calls_same w : set_embed_calls (embed_calls w) w = w.
Proof. by destruct w. Qed.

(** *** embed_batches *)

Lemma range_from_zero (n step : Z) :
  (0 ≤ n)%Z → (1 ≤ step)%Z →
  py_range 0 n step
  = Ok ((λ j : nat, (Z.of_nat j * step)%Z)
          <$> seq 0 (Z.to_nat (ceil_div n step))).
Proof.
  intros Hn Hstep. unfold py_range, range_length, ceil_div.
  rewrite decide_False, decide_True by lia. f_equal.
  assert ((if decide (0 < n)%Z then ((n - 0 - 1) / step + 1)%Z else 0%Z)
          = ((n + step - 1) / step)%Z) as ->.
  { case_decide.
    - replace (n + step - 1)%Z with ((n - 1) + 1 * step)%Z by lia.
      rewrite Z.div_add by lia. do 2 f_equal. lia.
    - replace n with 0%Z by lia. simpl. rewrite Z.div_small; lia. }
  apply list_fmap_ext. intros _ j _. lia.
Qed.

Lemma batches_concat (texts : list pystr) (batch_size : Z) (count : nat) :
  (1 ≤ batch_size)%Z →
  concat (batches_of texts batch_size count)
  = take (count * Z.to_nat batch_size) texts.
Proof.
  intros Hb. unfold batches_of. induction count as [|c IH]; [done|].
  rewrite seq_S, fmap_app, concat_app, IH. simpl.
  rewrite app_nil_r, py_slice_window by nia.
  replace (Z.to_nat (Z.of_nat c * batch_size)) with (c * Z.to_nat batch_size)
    by nia.
  rewrite take_take_drop. f_equal. lia.
Qed.

Lemma batches_cover (texts : list pystr) (batch_size : Z) :
  (1 ≤ batch_size)%Z →
  concat (batches_of texts batch_size
            (Z.to_nat (ceil_div (len texts) batch_size))) = texts.
Proof.
  intros Hb. rewrite batches_concat by done. apply take_ge.
  destruct (stride_count_spec (len texts) batch_size) as [_ Hge];
    [apply len_nonneg | lia |].
  unfold len in Hge. apply Nat2Z.inj_le.
  by rewrite Nat2Z.inj_mul, (Z2Nat.id batch_size) by lia.
Qed.

Section embed_batches.
Context `{EmbeddingClient}.
Context (is_embedding_of : pystr → vector → Prop).
Context (aligned : ∀ history batch, ∃ data,
            embeddings_response history batch = Some data
            ∧ Forall2 is_embedding_of batch data).

Lemma embed_loop_spec texts batch_size (count j0 : nat) all_vecs w :
  let batches :=
    (λ j : nat, py_slice texts (Z.of_nat j * batch_size)
                  (Z.of_nat j * batch_size + batch_size))
      <$> seq j0 count in
  ∃ data,
    for_each (embed_batch_step texts batch_size)
      ((λ j : nat, (Z.of_nat j * batch_size)%Z) <$> seq j0 count) all_vecs w
    = (Ok (all_vecs ++ data),
       set_embed_calls (embed_calls w ++ batches) w)
    ∧ Forall2 is_embedding_of (concat batches) data.
Proof.
  revert j0 all_vecs w. induction count as [|c IH]; intros j0 all_vecs w.
  - exists []. simpl. rewrite !app_nil_r, set_embed_calls_same.
    split; [done | constructor].
  - cbn [seq fmap list_fmap]. rewrite for_each_cons.
    set (batch := py_slice texts (Z.of_nat j0 * batch_size)
                    (Z.of_nat j0 * batch_size + batch_size)).
    destruct (aligned (embed_calls w) batch) as (data & Hdata & Hal).
    set (w1 := set_embed_calls (embed_calls w ++ [batch]) w).
    destruct (IH (S j0) (all_vecs ++ data) w1) as (data' & Hrest & Hal').
    exists (data ++ data'). split.
    + erewrite M_bind_ok; last first.
      { unfold embed_batch_step. fold batch.
        erewrite M_bind_ok; [done|].
        unfold embeddings_create. by rewrite Hdata. }
      fold w1. rewrite Hrest. unfold w1. simpl.
      by rewrite set_embed_calls_twice, <- !(assoc_L (++)).
    + simpl. by apply Forall2_app.
Qed.

Lemma embed_batches_spec texts batch_size w :
  (1 ≤ batch_size)%Z →
  ∃ vectors,
    embed_batches texts batch_size w
    = (Ok vectors,
       set_embed_calls
         (embed_calls w
          ++ batches_of texts batch_size
               (Z.to_nat (ceil_div (len texts) batch_size))) w)
    ∧ Forall2 is_embedding_of texts vectors.
Proof.
  intros Hb. unfold embed_batches.
  destruct (embed_loop_spec texts batch_size
              (Z.to_nat (ceil_div (len texts) batch_size)) 0 [] w)
    as (vectors & Hloop & Hal).
  exists vectors. split.
  - erewrite M_bind_ok;
      [| unfold lift; by rewrite range_from_zero by (apply len_nonneg || done)].
    exact Hloop.
  - fold (batches_of texts batch_size
            (Z.to_nat (ceil_div (len texts) batch_size))) in Hal.
    by rewrite batches_cover in Hal.
Qed.
End embed_batches.

(** C4: for a batch size of at least 1 and an embedder that answers every
    batch with one vector per input string, in order, [embed_batches]
    returns a list as long as [texts] whose i-th element is an embedding of
    [texts[i]]; the embedder is called once per batch, in order, the batches
    being the consecutive slices of [batch_size] texts (3 batches for 130
    texts at batch size 64). *)
Theorem embed_batches_aligned `{EmbeddingClient}
    (is_embedding_of : pystr → vector → Prop)
    (texts : list pystr) (batch_size : Z) (w : World) :
  (1 ≤ batch_size)%Z →
  (∀ history batch, ∃ data,
      embeddings_response history batch = Some data
      ∧ Forall2 is_embedding_of batch data) →
  let count := Z.to_nat (ceil_div (len texts) batch_size) in
  let batches := batches_of texts batch_size count in
  ∃ vectors,
    embed_batches texts batch_size w
    = (Ok vectors, set_embed_calls (embed_calls w ++ batches) w)
    ∧ length vectors = length texts
    ∧ (∀ (i : nat) text, texts !! i = Some text →
         ∃ v, vectors !! i = Some v ∧ is_embedding_of text v)
    ∧ length batches = count
    ∧ concat batches = texts
    ∧ (length texts = 130 → batch_size = 64%Z → count = 3).
Proof.
  intros Hb Haligned count batches.
  destruct (embed_batches_spec is_embedding_of Haligned texts batch_size w Hb)
    as (vectors & Hrun & Hal).
  exists vectors. split_and!.
  - done.
  - symmetry. by eapply Forall2_length.
  - intros i text Hi. by eapply Forall2_lookup_l.
  - unfold batches, batches_of. by rewrite length_fmap, length_seq.
  - by apply batches_cover.
  - intros Hlen ->. unfold count, len. by rewrite Hlen.
Qed.

(** C4 for 130 texts (the i-th one made of i letters) at batch size 64,
    with the embedder that answers with the length of each text. *)
Lemma embed_batches_aligned_witness :
  let texts : list pystr := (λ j : nat, replicate j 120%N) <$> seq 0 130 in
  (1 ≤ 64)%Z
  ∧ ∃ vectors w',
      @embed_batches length_embedder texts 64 empty_world = (Ok vectors, w')
      ∧ length (embed_calls w') = 3
      ∧ ∀ (i : nat) text, texts !! i = Some text →
          vectors !! i = Some (length_vector text).
Proof.
  intros texts. split; [lia|].
  destruct (@embed_batches_aligned length_embedder
              (λ text v, v = length_vector text) texts 64 empty_world
              ltac:(lia))
    as (vectors & Hrun & _ & Hal & Hcount & _ & Hex).
  { intros history batch. exists (length_vector <$> batch). split; [done|].
    induction batch; constructor; done. }
  eexists vectors, _. split_and!.
  - exact Hrun.
  - change (length (batches_of texts 64
                      (Z.to_nat (ceil_div (len texts) 64))) = 3).
    etrans; [exact Hcount|]. apply Hex; [|done].
    unfold texts. by rewrite length_fmap, length_seq.
  - intros i text Hi. by destruct (Hal i text Hi) as (v & -> & ->).
Defined.

(** *** retrieve *)

Section first_per_key.
Context {A : Type} (key : A → Key).
Implicit Types l : list A.
Implicit Types seen : gset Key.

Lemma first_per_key_keys seen l :
  key <$> first_per_key key seen l = first_per_key id seen (key <$> l).
Proof.
  revert seen. induction l as [|x l IH]; intros seen; simpl; [done|].
  case_decide; simpl; by rewrite IH.
Qed.

Lemma first_per_key_sublist seen l : first_per_key key seen l `sublist_of` l.
Proof.
  revert seen. induction l as [|x l IH]; intros seen; simpl; [done|].
  case_decide; [by apply sublist_cons | by apply sublist_skip].
Qed.

Lemma first_per_key_fresh seen l x :
  x ∈ first_per_key key seen l → key x ∉ seen.
Proof.
  revert seen. induction l as [|y l IH]; intros seen; simpl; [by intros ?%elem_of_nil|].
  case_decide as Hy.
  - apply IH.
  - intros [->|Hin%IH]%elem_of_cons; [done|]. set_solver.
Qed.

Lemma first_per_key_NoDup seen l : NoDup (key <$> first_per_key key seen l).
Proof.
  revert seen. induction l as [|y l IH]; intros seen; simpl; [constructor|].
  case_decide as Hy; [apply IH|].
  simpl. constructor; [|apply IH].
  intros (z & Hz & Hin%first_per_key_fresh)%list_elem_of_fmap. set_solver.
Qed.

Lemma first_per_key_length seen l :
  length (first_per_key key seen l)
  = size (list_to_set (key <$> l) ∖ seen : gset Key).
Proof.
  revert seen. induction l as [|y l IH]; intros seen.
  - cbn [first_per_key fmap list_fmap list_to_set foldr length].
    by rewrite difference_disjoint_L, size_empty by set_solver.
  - cbn [first_per_key]. rewrite fmap_cons, list_to_set_cons.
    case_decide as Hy.
    + rewrite IH. f_equal. set_solver.
    + cbn [length]. rewrite IH.
      replace (({[key y]} ∪ list_to_set (key <$> l)) ∖ seen : gset Key)
        with ({[key y]} ∪ (list_to_set (key <$> l) ∖ (seen ∪ {[key y]}))
              : gset Key)
        by (apply set_eq; intros x; destruct (decide (x = key y));
            set_solver).
      symmetry.
      rewrite size_union by (apply disjoint_singleton_l; set_solver).
      by rewrite size_singleton.
Qed.

(** Every kept element is the first of its key. *)
Lemma first_per_key_first l x :
  x ∈ first_per_key key ∅ l →
  ∃ i : nat, l !! i = Some x
    ∧ ∀ (j : nat) y, j < i → l !! j = Some y → key y ≠ key x.
Proof.
  assert (∀ seen, x ∈ first_per_key key seen l →
            ∃ i : nat, l !! i = Some x
              ∧ ∀ (j : nat) y, j < i → l !! j = Some y → key y ≠ key x)
    as Hgen; [|apply Hgen].
  induction l as [|z l IH]; intros seen; simpl; [by intros ?%elem_of_nil|].
  case_decide as Hz.
  - intros Hin. pose proof (first_per_key_fresh _ _ _ Hin) as Hfresh.
    destruct (IH _ Hin) as (i & Hi & Hfirst).
    exists (S i). split; [done|]. intros [|j] y Hj Hy; simpl in *.
    + injection Hy as <-. congruence.
    + apply (Hfirst j); [lia | done].
  - intros [->|Hin]%elem_of_cons.
    + exists 0. split; [done|]. intros j y Hj. lia.
    + pose proof (first_per_key_fresh _ _ _ Hin) as Hfresh.
      destruct (IH _ Hin) as (i & Hi & Hfirst).
      exists (S i). split; [done|]. intros [|j] y Hj Hy; simpl in *.
      * injection Hy as <-. set_solver.
      * apply (Hfirst j); [lia | done].
Qed.
End first_per_key.

Lemma first_per_key_covers {A} (key : A → Key) (seen : gset Key) (l : list A) y :
  y ∈ l → key y ∈ seen ∨ key y ∈ key <$> first_per_key key seen l.
Proof.
  revert seen. induction l as [|z l IH]; intros seen; [by intros ?%elem_of_nil|].
  cbn [first_per_key]. intros [->|Hin]%elem_of_cons.
  - case_decide; [by left|]. right. rewrite fmap_cons. apply elem_of_cons. by left.
  - case_decide as Hz; [by apply IH|].
    destruct (IH (seen ∪ {[key z]}) Hin) as [Hseen|Hkept].
    + apply elem_of_union in Hseen as [Hseen|Heq%elem_of_singleton];
        [by left|].
      right. rewrite fmap_cons, Heq. apply elem_of_cons. by left.
    + right. rewrite fmap_cons. apply elem_of_cons. by right.
Qed.

Lemma usable_Some (c : Candidate) d m id :
  usable c = Some (d, m, id) → c = (Some d, Some m, id).
Proof.
  destruct c as [[d0 m0] id0]. unfold usable.
  destruct (not_document d0 || not_metadata m0); [done|].
  destruct d0, m0; naive_solver.
Qed.

Lemma retrieve_loop_spec (k : Z) (candidates : list Candidate)
    (uniq : gset Key) out_docs out_metas out_ids :
  (len out_docs < k)%Z →
  let kept := take (Z.to_nat (k - len out_docs))
                (first_per_key entry_key uniq (omap usable candidates)) in
  ∃ uniq',
    retrieve_loop k candidates (uniq, out_docs, out_metas, out_ids)
    = (uniq', out_docs ++ kept.*1.*1, out_metas ++ kept.*1.*2,
       out_ids ++ kept.*2).
Proof.
  revert uniq out_docs out_metas out_ids.
  induction candidates as [|[[d m] _id] rest IH];
    intros uniq out_docs out_metas out_ids Hlen.
  - exists uniq. simpl. by rewrite take_nil, !app_nil_r.
  - cbn [retrieve_loop omap list_omap usable].
    destruct (not_document d || not_metadata m) eqn:Hguard; [by apply IH|].
    destruct d as [d'|], m as [m'|];
      try (simpl in Hguard; rewrite ?orb_true_r in Hguard; done).
    cbn [first_per_key].
    change (entry_key (d', m', _id)) with (dedup_key m').
    destruct (decide (dedup_key m' ∈ uniq)) as [Hkey|Hkey]; [by apply IH|].
    assert (len (out_docs ++ [d']) = len out_docs + 1)%Z as Hlen'
      by (unfold len; rewrite length_app; simpl; lia).
    case_decide as Hfull.
    + eexists. replace (Z.to_nat (k - len out_docs)) with 1 by lia.
      cbn [take fmap list_fmap fst snd]. rewrite take_0. done.
    + destruct (IH (uniq ∪ {[dedup_key m']}) (out_docs ++ [d'])
                  (out_metas ++ [m']) (out_ids ++ [_id])) as [uniq' ->]; [lia|].
      exists uniq'.
      replace (Z.to_nat (k - len out_docs))
        with (S (Z.to_nat (k - len (out_docs ++ [d'])))) by lia.
      cbn [take fmap list_fmap fst snd].
      by rewrite <- !(assoc_L (++)).
Qed.

Section retrieve.
Context `{EmbeddingClient, VectorIndex}.
Implicit Types q : pystr.
Implicit Types k : Z.
Implicit Types w : World.

Lemma retrieve_run q k w w' docs metas ids :
  (1 ≤ k)%Z →
  store_answers q k w w' docs metas ids →
  let kept := take (Z.to_nat k)
                (first_per_key entry_key ∅
                   (omap usable (zip (zip docs metas) ids))) in
  retrieve q k w = (Ok (kept.*1.*1, kept.*1.*2, kept.*2), w').
Proof.
  intros Hk (qvec & res & dists & Hq & Hres & Hdocs & Hmetas & Hdists & Hids)
    kept.
  unfold retrieve.
  erewrite M_bind_ok by exact Hq.
  erewrite M_bind_ok by exact Hres.
  rewrite Hdocs, Hmetas, Hdists, Hids.
  destruct (retrieve_loop_spec k (zip (zip docs metas) ids) ∅ [] [] [])
    as [uniq' Hloop]; [unfold len; simpl; lia|].
  unfold mbind, M_mbind, M_bind, lift. rewrite Hloop.
  unfold len. simpl. by rewrite Z.sub_0_r.
Qed.
End retrieve.

Section retrieve_claims.
Context `{EmbeddingClient, VectorIndex}.
Implicit Types q : pystr.
Implicit Types k : Z.
Implicit Types w : World.

(** C2 (amended): for [k >= 1], [retrieve] returns, in candidate order,
    the first candidate bearing each (source, page) key among the
    candidates with a document and metadata, up to the first [k] keys:
    no two results share a key, every result is the first such candidate
    of its key, a later candidate of a kept key is dropped whatever its
    text, and every key is kept unless [k] results were collected; for
    candidates whose keys are [a, a, b, c] and [k = 3] the output keys
    are [a, b, c]. *)
Theorem retrieve_first_per_key q k w w' docs metas ids :
  (1 ≤ k)%Z →
  store_answers q k w w' docs metas ids →
  let candidates := omap usable (zip (zip docs metas) ids) in
  let kept := take (Z.to_nat k) (first_per_key entry_key ∅ candidates) in
  retrieve q k w = (Ok (kept.*1.*1, kept.*1.*2, kept.*2), w')
  ∧ NoDup (entry_key <$> kept)
  ∧ (∀ x, x ∈ kept →
       ∃ i : nat, candidates !! i = Some x
         ∧ ∀ (j : nat) y, j < i → candidates !! j = Some y →
             entry_key y ≠ entry_key x)
  ∧ ((len kept < k)%Z →
     ∀ y, y ∈ candidates → entry_key y ∈ entry_key <$> kept)
  ∧ (∀ a b c, a ≠ b → a ≠ c → b ≠ c →
       entry_key <$> candidates = [a; a; b; c] → k = 3%Z →
       entry_key <$> kept = [a; b; c]).
Proof.
  intros Hk Hstore candidates kept. split_and!.
  - by apply retrieve_run.
  - unfold kept. rewrite fmap_take.
    eapply sublist_NoDup; [|apply sublist_take].
    apply first_per_key_NoDup.
  - intros x Hx. apply first_per_key_first.
    unfold kept in Hx. by apply subseteq_take in Hx.
  - intros Hlen y Hy. unfold kept in *.
    rewrite take_ge in *.
    + destruct (first_per_key_covers entry_key ∅ candidates y Hy)
        as [Hin|Hin]; [set_solver | done].
    + unfold len in Hlen. rewrite length_take in Hlen. lia.
    + unfold len in Hlen. rewrite length_take in Hlen. lia.
  - intros a b c Hab Hac Hbc Hkeys ->. unfold kept.
    rewrite fmap_take, first_per_key_keys, Hkeys. cbn [first_per_key id].
    rewrite decide_False by set_solver.
    rewrite decide_True by set_solver.
    rewrite decide_False by set_solver.
    rewrite decide_False by set_solver. done.
Qed.

(** The candidates that pass the guard of [retrieve] are those with a
    filled document and metadata, and the keys in the set [uniq] are as
    many as their pages. *)
Lemma usable_filled (candidates : list Candidate) :
  (λ x : pystr * Meta * pystr, x.1.2) <$> omap usable candidates
  = omap filled candidates.
Proof.
  induction candidates as [|[[d m] _id] candidates IH]; [done|].
  cbn [omap list_omap]. rewrite <- IH. unfold usable, filled.
  destruct d as [[|c d]|], m as [m|]; simpl; try done;
    try case_bool_decide; case_decide; simpl; try done; naive_solver.
Qed.

Lemma distinct_pages_size (ms : list Meta) :
  size (list_to_set (dedup_key <$> ms) : gset Key) = distinct_pages ms.
Proof.
  induction ms as [|m ms IH]; [done|].
  rewrite fmap_cons, list_to_set_cons. cbn [distinct_pages].
  assert (Exists (same_page m) ms
          ↔ dedup_key m ∈ (list_to_set (dedup_key <$> ms) : gset Key))
    as Hseen.
  { rewrite elem_of_list_to_set, list_elem_of_fmap, Exists_exists.
    unfold same_page, dedup_key. split.
    - intros (m' & Hin & Hs & Hp). exists m'. by rewrite Hs, Hp.
    - intros (m' & [= Hs Hp] & Hin). by exists m'. }
  case_decide as Hm.
  - rewrite <- IH. f_equal. apply subseteq_union_1_L.
    by apply singleton_subseteq_l, Hseen.
  - rewrite size_union, size_singleton, IH; [done|].
    apply disjoint_singleton_l. by rewrite <- Hseen.
Qed.

(** C3 (amended): for [k >= 1], [retrieve] returns three lists of one
    length, at most [k]; the entries at one index are the document, the
    metadata and the id of one candidate; and the length is [k] or the
    number of distinct (source, page) pairs among the candidates whose
    document and metadata are neither missing nor empty, whichever is
    less: it is below [k] exactly when these candidates bear fewer than
    [k] distinct pairs. *)
Theorem retrieve_at_most_k q k w w' docs metas ids :
  (1 ≤ k)%Z →
  store_answers q k w w' docs metas ids →
  let pages := distinct_pages (omap filled (zip (zip docs metas) ids)) in
  ∃ out_docs out_metas out_ids,
    retrieve q k w = (Ok (out_docs, out_metas, out_ids), w')
    ∧ length out_metas = length out_docs
    ∧ length out_ids = length out_docs
    ∧ (len out_docs ≤ k)%Z
    ∧ (∀ (i : nat) d, out_docs !! i = Some d →
         ∃ m _id, out_metas !! i = Some m ∧ out_ids !! i = Some _id
           ∧ (Some d, Some m, _id) ∈ zip (zip docs metas) ids)
    ∧ len out_docs = Z.min k (Z.of_nat pages)
    ∧ ((len out_docs < k)%Z ↔ (Z.of_nat pages < k)%Z).
Proof.
  intros Hk Hstore pages.
  set (candidates := omap usable (zip (zip docs metas) ids)).
  set (kept := take (Z.to_nat k) (first_per_key entry_key ∅ candidates)).
  assert (length (first_per_key entry_key ∅ candidates) = pages) as Hpages.
  { rewrite first_per_key_length, difference_empty_L. unfold pages.
    rewrite <- usable_filled, <- distinct_pages_size.
    by rewrite <- list_fmap_compose. }
  exists (kept.*1.*1), (kept.*1.*2), (kept.*2). split_and!.
  - by apply retrieve_run.
  - by rewrite !length_fmap.
  - by rewrite !length_fmap.
  - unfold len, kept. rewrite !length_fmap, length_take. lia.
  - intros i d Hd.
    apply list_lookup_fmap_Some in Hd as (dm & -> & Hdm).
    apply list_lookup_fmap_Some in Hdm as ([[d m] _id] & -> & Hx).
    exists m, _id. rewrite !list_lookup_fmap, Hx. split_and!; [done..|].
    apply list_elem_of_lookup_2 in Hx. unfold kept in Hx.
    apply subseteq_take in Hx.
    eapply elem_of_sublist in Hx; [|apply first_per_key_sublist].
    apply list_elem_of_omap in Hx as (c & Hc & Hu).
    apply usable_Some in Hu. by subst c.
  - unfold len, kept. rewrite !length_fmap, length_take, Hpages. lia.
  - unfold len, kept. rewrite !length_fmap, length_take, Hpages. lia.
Qed.
End retrieve_claims.

(** The fixed store and the embedder of the examples answer every query. *)
Lemma fixed_index_answers (res : QueryResult) q k docs metas dists ids :
  py_first (res_get (res_documents res)) = Ok docs →
  py_first (res_get (res_metadatas res)) = Ok metas →
  py_first (res_get (res_distances res)) = Ok dists →
  py_first (res_get (res_ids res)) = Ok ids →
  @store_answers length_embedder (fixed_index res) q k empty_world (asked q)
    docs metas ids.
Proof. intros. by exists (length_vector q), res, dists. Qed.

(** C2 fails as stated.  With [k = 1] and candidates of the pages (A,1) and
    (A,2), the first candidate of the key (A,2) is not kept; and when the
    first candidate of the key (A,1) has no document, the later candidate
    of that key is kept. *)
Lemma retrieve_first_per_key_counterexample :
  (@retrieve length_embedder (fixed_index two_pages) (py "q") 1 empty_world).1
  = Ok ([py "chunk of A1"], [page_meta "A" 1], [py "id1"])
  ∧ (py "id2" ∉ [py "id1"])
  ∧ (@retrieve length_embedder (fixed_index missing_document) (py "q") 2
       empty_world).1
    = Ok ([py "chunk of A1"], [page_meta "A" 1], [py "id2"])
  ∧ (py "id1" ∉ [py "id2"]).
Proof.
  split_and!.
  - vm_compute. reflexivity.
  - by intros [=]%list_elem_of_singleton.
  - vm_compute. reflexivity.
  - by intros [=]%list_elem_of_singleton.
Qed.

(** The amended C2 on the example: the candidates of the pages (A,1),
    (A,1), (A,2), (B,1) and [k = 3] give the first, third and fourth
    candidate. *)
Lemma retrieve_first_per_key_witness :
  (1 ≤ 3)%Z
  ∧ ∃ docs metas ids,
      @store_answers length_embedder (fixed_index dedup_example) (py "q") 3
        empty_world (asked (py "q")) docs metas ids
      ∧ @retrieve length_embedder (fixed_index dedup_example) (py "q") 3
          empty_world
        = (Ok ([py "first chunk of A1"; py "chunk of A2"; py "chunk of B1"],
               [page_meta "A" 1; page_meta "A" 2; page_meta "B" 1],
               [py "id1"; py "id3"; py "id4"]),
           asked (py "q")).
Proof.
  split; [lia|].
  eexists _, _, _. split.
  - eapply fixed_index_answers; reflexivity.
  - destruct (@retrieve_first_per_key length_embedder
                (fixed_index dedup_example) (py "q") 3 empty_world
                (asked (py "q")) _ _ _ ltac:(lia)
                (fixed_index_answers dedup_example (py "q") 3 _ _ _ _
                   eq_refl eq_refl eq_refl eq_refl)) as [Hrun _].
    rewrite Hrun. vm_compute. reflexivity.
Defined.

(** C3 fails as stated.  A candidate whose document is the empty string
    has a document and metadata that are not missing, and its page is one
    unique page; yet [retrieve] skips it, and returns fewer than [k = 1]
    results. *)
Lemma retrieve_at_most_k_counterexample :
  (1 ≤ 1)%Z
  ∧ @store_answers length_embedder (fixed_index empty_document) (py "q") 1
      empty_world (asked (py "q")) [Some (py "")] [Some (page_meta "A" 1)]
      [py "id1"]
  ∧ distinct_pages
      (omap present
         (zip (zip [Some (py "")] [Some (page_meta "A" 1)]) [py "id1"]))
    = 1
  ∧ (@retrieve length_embedder (fixed_index empty_document) (py "q") 1
       empty_world).1
    = Ok ([], [], []).
Proof.
  split_and!; [lia| |done|done].
  eapply fixed_index_answers; reflexivity.
Qed.

(** The amended C3 with [k = 6] against four candidates: two of one page,
    one with an empty document, and one of another page; two results. *)
Lemma retrieve_at_most_k_witness :
  (1 ≤ 6)%Z
  ∧ ∃ docs metas ids,
      @store_answers length_embedder (fixed_index mixed_candidates) (py "q")
        6 empty_world (asked (py "q")) docs metas ids
      ∧ distinct_pages (omap filled (zip (zip docs metas) ids)) = 2
      ∧ ∃ out_docs out_metas out_ids,
          @retrieve length_embedder (fixed_index mixed_candidates) (py "q") 6
            empty_world
          = (Ok (out_docs, out_metas, out_ids), asked (py "q"))
          ∧ out_ids = [py "id1"; py "id4"]
          ∧ len out_docs = 2%Z.
Proof.
  split; [lia|].
  eexists _, _, _. split; [|split].
  - eapply fixed_index_answers; reflexivity.
  - reflexivity.
  - destruct (@retrieve_at_most_k length_embedder
                (fixed_index mixed_candidates) (py "q") 6 empty_world
                (asked (py "q")) _ _ _ ltac:(lia)
                (fixed_index_answers mixed_candidates (py "q") 6 _ _ _ _
                   eq_refl eq_refl eq_refl eq_refl))
      as (out_docs & out_metas & out_ids & Hrun & _ & _ & _ & _ & Hlen & _).
    exists out_docs, out_metas, out_ids. split_and!; [done| |done].
    vm_compute in Hrun. by injection Hrun as _ _ <-.
Defined.

(** *** The vector store *)

Lemma get_or_create_collection_spec path name w :
  ∃ w', get_or_create_collection path name w = (Ok (path, name), w')
    ∧ embed_calls w' = embed_calls w
    ∧ uuids_drawn w' = uuids_drawn w
    ∧ data_dir w' = data_dir w
    ∧ ∀ col, collection_records col w' = collection_records col w.
Proof.
  unfold get_or_create_collection.
  destruct (chroma w !! (path, name)) eqn:Hcol; [by exists w|].
  eexists. split_and!; try done.
  intros col. unfold collection_records. simpl.
  destruct (decide (col = (path, name))) as [->|Hne].
  - by rewrite lookup_insert_eq, Hcol.
  - by rewrite lookup_insert_ne.
Qed.

Lemma matches_source (v : MetaVal) (r : Rec) :
  matches_where {[ "source" := v ]} r ↔ rec_source r = Some v.
Proof.
  unfold matches_where, rec_source. destruct (rec_metadata r) as [m|]; simpl.
  - by rewrite map_Forall_singleton.
  - done.
Qed.

(** *** ingest_single_pdf *)

Section ingest.
Context `{Encoding, EmbeddingClient, Entropy}.

(** Pages without text are counted and nothing else. *)
Lemma ingest_pages_without_text (fuel : nat) (name : pystr)
    (entries : list (Z * pystr)) lists (page_count : Z) w :
  Forall (λ entry, entry.2 = []) entries →
  for_each (ingest_page fuel name) entries (lists, page_count) w
  = (Ok (lists, (page_count + len entries)%Z), w).
Proof.
  revert page_count. induction entries as [|[page_no page_text] entries IH];
    intros page_count Hempty.
  - unfold len. simpl. by rewrite Z.add_0_r.
  - apply Forall_cons in Hempty as [Htext Hempty]. simpl in Htext. subst.
    rewrite for_each_cons.
    erewrite M_bind_ok; [|unfold ingest_page; by rewrite decide_True].
    rewrite IH by done. do 3 f_equal. unfold len. simpl. lia.
Qed.

Lemma pdf_to_pages_length (reader_pages : list (option pystr)) :
  length (pdf_to_pages reader_pages) = length reader_pages.
Proof.
  unfold pdf_to_pages, enumerate. by rewrite length_fmap, length_imap.
Qed.

Lemma pdf_to_pages_without_text (reader_pages : list (option pystr)) :
  Forall (λ page, clean (default [] page) = []) reader_pages →
  Forall (λ entry, entry.2 = []) (pdf_to_pages reader_pages).
Proof.
  intros Hempty. unfold pdf_to_pages, enumerate.
  rewrite Forall_fmap. apply Forall_forall.
  intros [i page] Hin. simpl.
  apply list_elem_of_lookup in Hin as [j Hj].
  rewrite list_lookup_imap in Hj.
  destruct (reader_pages !! j) as [page'|] eqn:Hpage; [|done].
  simpl in Hj. injection Hj as _ <-.
  by eapply Forall_lookup_1 in Hempty.
Qed.

(** C8 (amended): when every page of a document cleans to the empty
    text, [ingest_single_pdf] returns [{pages: N, chunks: 0}] for the N
    pages of the document; no embedding call is made, no UUID is drawn and
    no record is written.  The store is invoked all the same, once and
    before any page is read: the world the run leaves is the one
    [get_or_create_collection] leaves, in which the collection exists; it
    is the world before when the store had the collection, and holds one
    more collection, an empty one, when not. *)
Theorem ingest_empty_document (fuel : nat) (name : pystr)
    (reader_pages : list (option pystr)) (vectordir collection_name : pystr)
    (w : World) :
  Forall (λ page, clean (default [] page) = []) reader_pages →
  ∃ w',
    ingest_single_pdf fuel name reader_pages vectordir collection_name w
    = (Ok {| pages := len reader_pages; chunks := 0 |}, w')
    ∧ get_or_create_collection vectordir collection_name w
      = (Ok (vectordir, collection_name), w')
    ∧ is_Some (chroma w' !! (vectordir, collection_name))
    ∧ (is_Some (chroma w !! (vectordir, collection_name)) → w' = w)
    ∧ (chroma w !! (vectordir, collection_name) = None →
       chroma w' = <[(vectordir, collection_name) := []]> (chroma w))
    ∧ embed_calls w' = embed_calls w
    ∧ (∀ col, collection_records col w' = collection_records col w)
    ∧ uuids_drawn w' = uuids_drawn w
    ∧ data_dir w' = data_dir w.
Proof.
  intros Hempty.
  destruct (get_or_create_collection_spec vectordir collection_name w)
    as (w' & Hcol & Hcalls & Huuid & Hdir & Hrecords).
  exists w'. split_and!; try done.
  - unfold ingest_single_pdf.
    erewrite M_bind_ok by exact Hcol.
    erewrite M_bind_ok;
      [|by apply ingest_pages_without_text, pdf_to_pages_without_text].
    cbv beta iota. rewrite decide_True by done.
    unfold len. by rewrite pdf_to_pages_length.
  - unfold get_or_create_collection in Hcol.
    destruct (chroma w !! (vectordir, collection_name)) eqn:Hw;
      injection Hcol as <-; [by rewrite Hw|].
    simpl. by rewrite lookup_insert_eq.
  - intros [recs Hw]. unfold get_or_create_collection in Hcol.
    rewrite Hw in Hcol. by injection Hcol.
  - intros Hw. unfold get_or_create_collection in Hcol.
    rewrite Hw in Hcol. by injection Hcol as <-.
Qed.
End ingest.

(** C8 fails as stated: the store is invoked.  On a store without the
    collection, ingesting a document without text creates it. *)
Lemma ingest_empty_document_counterexample :
  Forall (λ page, clean (default [] page) = []) [None; Some (py "   ")]
  ∧ chroma empty_world !! (CHROMA, EDU_TUTOR) = None
  ∧ ∃ w',
      @ingest_single_pdf codepoint_encoding length_embedder fixed_entropy 0
        (py "scan.pdf") [None; Some (py "   ")] CHROMA EDU_TUTOR empty_world
      = (Ok {| pages := 2; chunks := 0 |}, w')
      ∧ chroma w' !! (CHROMA, EDU_TUTOR) = Some []
      ∧ w' ≠ empty_world.
Proof.
  split; [repeat constructor|]. split; [done|].
  eexists. split; [vm_compute; reflexivity|]. split; [by vm_compute|].
  intros Heq. apply (f_equal (λ w, chroma w !! (CHROMA, EDU_TUTOR))) in Heq.
  vm_compute in Heq. discriminate.
Qed.

(** The amended C8 on a document of three pages: nothing, spaces, and line
    breaks; the store has the collection. *)
Lemma ingest_empty_document_witness :
  Forall (λ page, clean (default [] page) = [])
    [None; Some (py "   "); Some [10; 9; 160]%N]
  ∧ @ingest_single_pdf codepoint_encoding length_embedder fixed_entropy 0
      (py "scan.pdf") [None; Some (py "   "); Some [10; 9; 160]%N]
      CHROMA EDU_TUTOR two_documents
    = (Ok {| pages := 3; chunks := 0 |}, two_documents).
Proof.
  assert (Forall (λ page, clean (default [] page) = [])
            [None; Some (py "   "); Some [10; 9; 160]%N]) as Hempty
    by (repeat constructor).
  split; [done|].
  destruct (@ingest_empty_document codepoint_encoding length_embedder
              fixed_entropy 0 (py "scan.pdf") _ CHROMA EDU_TUTOR two_documents
              Hempty) as (w' & Hrun & _).
  rewrite Hrun. f_equal.
  vm_compute in Hrun. by injection Hrun.
Defined.

(** *** delete_pdf *)

(** C9: [delete_pdf] removes from the collection exactly the records whose
    metadata [source] is the file name: the records left are those of
    another source, in their order, and the other collections are left as
    they were. *)
Theorem delete_pdf_scope (filename : pystr) (w : World) :
  ∃ w',
    delete_pdf filename w = (Ok true, w')
    ∧ collection_records (CHROMA, EDU_TUTOR) w'
      = filter (λ r, rec_source r ≠ Some (MStr filename))
          (collection_records (CHROMA, EDU_TUTOR) w)
    ∧ (∀ r, r ∈ collection_records (CHROMA, EDU_TUTOR) w'
            ↔ r ∈ collection_records (CHROMA, EDU_TUTOR) w
              ∧ rec_source r ≠ Some (MStr filename))
    ∧ (∀ col, col ≠ (CHROMA, EDU_TUTOR) →
         collection_records col w' = collection_records col w)
    ∧ data_dir w' = data_dir w ∖ {[filename]}
    ∧ embed_calls w' = embed_calls w.
Proof.
  unfold delete_pdf.
  set (w1 := (unlink_if_exists filename w).2).
  assert (unlink_if_exists filename w = (Ok (), w1)) as Hunlink
    by (unfold w1, unlink_if_exists; by case_decide).
  assert (data_dir w1 = data_dir w ∖ {[filename]}
          ∧ chroma w1 = chroma w ∧ embed_calls w1 = embed_calls w)
    as (Hdir1 & Hchroma1 & Hcalls1).
  { unfold w1, unlink_if_exists. case_decide; simpl; [done|].
    split_and!; [|done..]. set_solver. }
  destruct (get_or_create_collection_spec CHROMA EDU_TUTOR w1)
    as (w2 & Hcol & Hcalls2 & _ & Hdir2 & Hrecords2).
  assert (∀ col, collection_records col w2 = collection_records col w)
    as Hrecords.
  { intros col. rewrite Hrecords2. unfold collection_records.
    by rewrite Hchroma1. }
  eexists. split_and!.
  - erewrite M_bind_ok by exact Hunlink.
    erewrite M_bind_ok by exact Hcol.
    unfold mbind, M_mbind, M_bind, col_delete. reflexivity.
  - unfold collection_records at 1. simpl. rewrite lookup_insert_eq. simpl.
    rewrite Hrecords. apply list_filter_iff. intros r.
    by rewrite matches_source.
  - intros r. unfold collection_records at 1. simpl.
    rewrite lookup_insert_eq. simpl. rewrite Hrecords, list_elem_of_filter.
    rewrite matches_source. tauto.
  - intros col Hne. unfold collection_records at 1. simpl.
    rewrite lookup_insert_ne by done. apply Hrecords.
  - simpl. by rewrite Hdir2.
  - simpl. by rewrite Hcalls2.
Qed.

(** On the store seeded with two documents, deleting "a.pdf" leaves the two
    chunks of "b.pdf". *)
Example delete_pdf_two_documents :
  rec_id <$> collection_records (CHROMA, EDU_TUTOR)
               (delete_pdf (py "a.pdf") two_documents).2
  = [py "id2"; py "id4"].
Proof. vm_compute. reflexivity. Qed.

(** ** Part III: further properties of the pipeline *)

(** *** chunk_text: what the windows hold *)

Lemma slices_concat {A} (l : list A) (stride count : nat) :
  concat ((λ j : nat, take stride (drop (j * stride) l)) <$> seq 0 count)
  = take (count * stride) l.
Proof.
  induction count as [|c IH]; [done|].
  rewrite seq_S, fmap_app, concat_app, IH. simpl.
  rewrite app_nil_r, take_take_drop. f_equal. lia.
Qed.

(** The windows of a valid configuration, with indices in [nat]. *)
Lemma chunk_windows_run (tokens : list Z) (max_tokens overlap : Z)
    (fuel : nat) (windows : list (list Z)) :
  (0 ≤ overlap < max_tokens)%Z →
  chunk_windows fuel tokens max_tokens overlap = Ok windows →
  let stride := Z.to_nat (max_tokens - overlap) in
  let n := Z.to_nat (ceil_div (len tokens) (max_tokens - overlap)) in
  windows
  = (λ j : nat, take (Z.to_nat max_tokens) (drop (j * stride) tokens))
      <$> seq 0 n
  ∧ (∀ j : nat, j < n → j * stride < length tokens)
  ∧ length tokens ≤ n * stride
  ∧ n < fuel.
Proof.
  intros Hcfg Hrun stride n. unfold chunk_windows in Hrun.
  rewrite chunk_loop_valid in Hrun by done. fold n in Hrun.
  case_decide as Hfuel; [done|]. injection Hrun as <-.
  destruct (stride_count_spec (len tokens) (max_tokens - overlap))
    as [Hlt Hge]; [apply len_nonneg | lia |]. fold n in Hlt, Hge.
  split_and!.
  - rewrite chunk_state_at_eq. simpl. apply list_fmap_ext.
    intros _ j _. unfold id. rewrite py_slice_window by nia.
    do 2 f_equal. unfold stride. nia.
  - intros j Hj. specialize (Hlt j Hj). unfold len in Hlt.
    unfold stride. nia.
  - unfold len in Hge. unfold stride. nia.
  - lia.
Qed.

(** X1: for [0 <= overlap < max_tokens] the windows cover the token
    stream: the first [max_tokens - overlap] tokens of the windows, put end
    to end, are the tokens of the text. *)
Theorem chunk_windows_cover `{Encoding} (text : pystr)
    (max_tokens overlap : Z) (fuel : nat) (windows : list (list Z)) :
  (0 ≤ overlap < max_tokens)%Z →
  chunk_windows fuel (encode text) max_tokens overlap = Ok windows →
  concat (take (Z.to_nat (max_tokens - overlap)) <$> windows) = encode text.
Proof.
  intros Hcfg Hrun.
  destruct (chunk_windows_run _ _ _ _ _ Hcfg Hrun) as (-> & _ & Hge & _).
  rewrite <- list_fmap_compose.
  erewrite list_fmap_ext; [rewrite slices_concat; by apply take_ge|].
  intros _ j _. simpl. rewrite take_take. f_equal. lia.
Qed.

Lemma chunk_windows_cover_witness :
  (0 ≤ 2 < 4)%Z
  ∧ concat (take 2 <$> [[97; 98; 99; 100]; [99; 100; 101]; [101]]%Z)
    = @encode codepoint_encoding (py "abcde").
Proof.
  split; [lia|].
  exact (@chunk_windows_cover codepoint_encoding (py "abcde") 4 2 4
           [[97; 98; 99; 100]; [99; 100; 101]; [101]]%Z ltac:(lia) eq_refl).
Defined.

(** X2: for [0 <= overlap < max_tokens] no window is empty; window i is
    the slice of at most [max_tokens] tokens that starts at token
    [i * (max_tokens - overlap)], and a window that holds fewer than
    [max_tokens] tokens runs to the end of the token stream. *)
Theorem chunk_windows_nonempty `{Encoding} (text : pystr)
    (max_tokens overlap : Z) (fuel : nat) (windows : list (list Z))
    (i : nat) (w : list Z) :
  (0 ≤ overlap < max_tokens)%Z →
  chunk_windows fuel (encode text) max_tokens overlap = Ok windows →
  windows !! i = Some w →
  let start := i * Z.to_nat (max_tokens - overlap) in
  w ≠ []
  ∧ w = take (Z.to_nat max_tokens) (drop start (encode text))
  ∧ ((len w < max_tokens)%Z → w = drop start (encode text)).
Proof.
  intros Hcfg Hrun Hw start.
  destruct (chunk_windows_run _ _ _ _ _ Hcfg Hrun) as (-> & Hlt & _ & _).
  apply list_lookup_fmap_Some in Hw as (j & -> & Hj).
  apply lookup_seq in Hj as [-> Hi]. simpl. fold start.
  specialize (Hlt i Hi). fold start in Hlt.
  split_and!.
  - intros Hnil%(f_equal length). rewrite length_take, length_drop in Hnil.
    simpl in Hnil. lia.
  - done.
  - unfold len. rewrite length_take, length_drop. intros Hshort.
    apply take_ge. rewrite length_drop. lia.
Qed.

Lemma chunk_windows_nonempty_witness :
  (0 ≤ 2 < 4)%Z
  ∧ [99; 100; 101]%Z = drop 2 (@encode codepoint_encoding (py "abcde")).
Proof.
  split; [lia|].
  destruct (@chunk_windows_nonempty codepoint_encoding (py "abcde") 4 2 4
              [[97; 98; 99; 100]; [99; 100; 101]; [101]]%Z 1
              [99; 100; 101]%Z ltac:(lia) eq_refl eq_refl) as (_ & _ & Hend).
  apply Hend. unfold len. simpl. lia.
Defined.

(** X3: a text with at least one token and at most
    [max_tokens - overlap] of them gives exactly one chunk, the decoding of
    all its tokens. *)
Theorem chunk_text_single `{Encoding} (text : pystr)
    (max_tokens overlap : Z) (fuel : nat) :
  (0 ≤ overlap < max_tokens)%Z →
  (0 < len (encode text) ≤ max_tokens - overlap)%Z →
  2 ≤ fuel →
  chunk_text fuel text max_tokens overlap = Ok [decode (encode text)].
Proof.
  intros Hcfg Hlen Hfuel.
  destruct (chunk_windows_valid (encode text) max_tokens overlap Hcfg fuel)
    as [_ Hrun].
  unfold chunk_text. rewrite Hrun. clear Hrun.
  assert (ceil_div (len (encode text)) (max_tokens - overlap) = 1%Z) as ->.
  { unfold ceil_div.
    replace (len (encode text) + (max_tokens - overlap) - 1)%Z
      with ((len (encode text) - 1) + 1 * (max_tokens - overlap))%Z by lia.
    rewrite Z.div_add by lia. rewrite Z.div_small; lia. }
  rewrite decide_False by lia. simpl. do 3 f_equal.
  rewrite py_slice_window by lia. simpl. rewrite drop_0.
  apply take_ge. unfold len in Hlen. lia.
Qed.

Lemma chunk_text_single_witness :
  (0 ≤ 80 < 500)%Z
  ∧ @chunk_text codepoint_encoding 2 (py "a short page") 500 80
    = Ok [py "a short page"].
Proof.
  split; [lia|].
  apply (@chunk_text_single codepoint_encoding (py "a short page") 500 80 2);
    [lia | unfold len; simpl; lia | lia].
Defined.

(** *** clean: what it keeps *)

Lemma dropwhile_keeps {A} (p : A → bool) (l : list A) :
  filter (λ x, p x = false) (dropwhile p l) = filter (λ x, p x = false) l.
Proof.
  induction l as [|x l IH]; simpl; [done|].
  destruct (p x) eqn:Hx; [|done].
  rewrite IH, filter_cons_False; [done | congruence].
Qed.

Lemma sub_whitespace_keeps (s : pystr) :
  filter (λ c, isspace c = false) (sub_whitespace s)
  = filter (λ c, isspace c = false) s.
Proof.
  induction s as [|c s IH]; [done|].
  cbn [sub_whitespace]. destruct (isspace c) eqn:Hc.
  - rewrite (filter_cons_False _ c) by congruence.
    destruct s as [|c' s]; [done|].
    destruct (isspace c'); [done|].
    rewrite (filter_cons_False _ SPACE); [done | by compute].
  - rewrite !(filter_cons_True _ c) by done. f_equal. exact IH.
Qed.

Lemma strip_keeps (s : pystr) :
  filter (λ c, isspace c = false) (strip s)
  = filter (λ c, isspace c = false) s.
Proof.
  unfold strip, rstrip, lstrip, pystr, codepoint in *.
  rewrite filter_reverse, dropwhile_keeps, filter_reverse, reverse_involutive.
  apply dropwhile_keeps.
Qed.

Lemma clean_keeps (s : pystr) :
  filter (λ c, isspace c = false) (clean s)
  = filter (λ c, isspace c = false) s.
Proof. unfold clean. by rewrite strip_keeps, sub_whitespace_keeps. Qed.

(** X4: [clean] neither drops nor reorders a character that is not
    whitespace. *)
Theorem clean_keeps_text (s : pystr) :
  filter (λ c, isspace c = false) (clean s)
  = filter (λ c, isspace c = false) s.
Proof. apply clean_keeps. Qed.

(** X5: [clean] gives the empty string exactly for the strings made of
    whitespace only (the pages that ingestion skips). *)
Theorem clean_empty_iff (s : pystr) :
  clean s = [] ↔ Forall (λ c, isspace c = true) s.
Proof.
  split.
  - intros Hclean. pose proof (clean_keeps s) as Hkeep.
    rewrite Hclean in Hkeep. apply Forall_forall. intros c Hc.
    destruct (isspace c) eqn:Hsp; [done|].
    assert (c ∈ filter (λ c, isspace c = false) s) as Hin
      by (by apply list_elem_of_filter).
    rewrite <- Hkeep in Hin. by apply elem_of_nil in Hin.
  - intros Hall. pose proof (clean_keeps s) as Hkeep.
    destruct (clean s) as [|c t] eqn:Hclean; [done|]. exfalso.
    assert (isspace c = false) as Hc.
    { apply (strip_head (sub_whitespace s)). unfold clean in Hclean.
      by rewrite Hclean. }
    assert (c ∈ filter (λ c, isspace c = false) s) as Hin.
    { rewrite <- Hkeep. apply list_elem_of_filter. split; [done|].
      apply elem_of_cons. by left. }
    apply list_elem_of_filter in Hin as [_ Hin].
    rewrite Forall_forall in Hall. specialize (Hall c Hin). congruence.
Qed.

Lemma rstrip_id (s : pystr) :
  (∀ c, last s = Some c → isspace c = false) → rstrip s = s.
Proof.
  intros Hlast. unfold rstrip. rewrite dropwhile_id.
  - apply reverse_involutive.
  - intros c Hc. apply Hlast. by rewrite <- head_reverse.
Qed.

(** X6: the strings [clean] leaves unchanged are exactly those whose
    whitespace characters are single spaces between other characters. *)
Theorem clean_fixpoint_iff (s : pystr) :
  clean s = s ↔ collapsed s = true ∧ no_outer_whitespace s.
Proof.
  split.
  - intros Hfix. rewrite <- Hfix. split; [apply clean_collapsed|].
    split; intros c; [apply strip_head | apply rstrip_last].
  - intros [Hcol [Hhead Hlast]]. unfold clean, strip, lstrip.
    rewrite sub_whitespace_id by done.
    rewrite dropwhile_id by done. by apply rstrip_id.
Qed.

(** *** embed_batches: failures and degenerate calls *)

Lemma batches_bounds (texts : list pystr) (batch_size : Z) (b : list pystr) :
  (1 ≤ batch_size)%Z →
  b ∈ batches_of texts batch_size
        (Z.to_nat (ceil_div (len texts) batch_size)) →
  (1 ≤ len b ≤ batch_size)%Z.
Proof.
  intros Hb Hin. unfold batches_of in Hin.
  apply list_elem_of_fmap in Hin as (j & -> & Hj).
  apply elem_of_seq in Hj as [_ Hj]. simpl in Hj.
  destruct (stride_count_spec (len texts) batch_size) as [Hlt _];
    [apply len_nonneg | lia |].
  specialize (Hlt j Hj). unfold len in *.
  rewrite py_slice_window by nia. rewrite length_take, length_drop. nia.
Qed.

Section embed_batches_outcome.
Context `{EmbeddingClient}.

Lemma embed_loop_outcome (texts : list pystr) (batch_size : Z)
    (count j0 : nat) (all_vecs : list vector) (w : World) :
  let batch := λ j : nat, py_slice texts (Z.of_nat j * batch_size)
                            (Z.of_nat j * batch_size + batch_size) in
  let batches := batch <$> seq j0 count in
  let run := for_each (embed_batch_step texts batch_size)
               ((λ j : nat, (Z.of_nat j * batch_size)%Z) <$> seq j0 count)
               all_vecs w in
  (∃ data,
     run = (Ok (all_vecs ++ data),
            set_embed_calls (embed_calls w ++ batches) w))
  ∨ (∃ j : nat, j < count
       ∧ run = (Raise ServiceError,
                set_embed_calls (embed_calls w ++ take (S j) batches) w)
       ∧ embeddings_response (embed_calls w ++ take j batches)
           (batch (j0 + j)) = None).
Proof.
  revert j0 all_vecs w. induction count as [|c IH]; intros j0 all_vecs w.
  - left. exists []. simpl. by rewrite !app_nil_r, set_embed_calls_same.
  - cbn zeta. cbn [seq fmap list_fmap]. rewrite for_each_cons.
    set (b := py_slice texts (Z.of_nat j0 * batch_size)
                (Z.of_nat j0 * batch_size + batch_size)).
    destruct (embeddings_response (embed_calls w) b) as [data|] eqn:Hresp.
    + set (w1 := set_embed_calls (embed_calls w ++ [b]) w).
      assert (embed_batch_step texts batch_size all_vecs
                (Z.of_nat j0 * batch_size)%Z w = (Ok (all_vecs ++ data), w1))
        as Hstep.
      { unfold embed_batch_step. fold b.
        erewrite M_bind_ok; [done|].
        unfold embeddings_create. by rewrite Hresp. }
      erewrite M_bind_ok by exact Hstep.
      destruct (IH (S j0) (all_vecs ++ data) w1)
        as [(data' & Hrun)|(j & Hj & Hrun & Hfail)].
      * left. exists (data ++ data'). rewrite Hrun. unfold w1. simpl.
        by rewrite set_embed_calls_twice, <- !(assoc_L (++)).
      * right. exists (S j). split_and!; [lia | |].
        -- rewrite Hrun. unfold w1. simpl.
           by rewrite set_embed_calls_twice, <- !(assoc_L (++)).
        -- unfold w1 in Hfail. simpl in Hfail.
           rewrite <- (assoc_L (++)) in Hfail. simpl in Hfail.
           by replace (j0 + S j) with (S j0 + j) by lia.
    + right. exists 0. split_and!; [lia | |].
      * unfold mbind, M_mbind, M_bind, embed_batch_step. fold b.
        unfold mbind, M_mbind, M_bind, embeddings_create.
        rewrite Hresp. simpl. by rewrite take_0.
      * simpl. rewrite app_nil_r, Nat.add_0_r. exact Hresp.
Qed.

Lemma embed_batches_run (texts : list pystr) (batch_size : Z) (w : World) :
  (1 ≤ batch_size)%Z →
  let batches := batches_of texts batch_size
                   (Z.to_nat (ceil_div (len texts) batch_size)) in
  (∃ vectors,
     embed_batches texts batch_size w
     = (Ok vectors, set_embed_calls (embed_calls w ++ batches) w))
  ∨ (∃ (j : nat) b, batches !! j = Some b
       ∧ embed_batches texts batch_size w
         = (Raise ServiceError,
            set_embed_calls (embed_calls w ++ take (S j) batches) w)
       ∧ embeddings_response (embed_calls w ++ take j batches) b = None).
Proof.
  intros Hb batches. unfold embed_batches.
  erewrite M_bind_ok;
    [| unfold lift; by rewrite range_from_zero by (apply len_nonneg || done)].
  destruct (embed_loop_outcome texts batch_size
              (Z.to_nat (ceil_div (len texts) batch_size)) 0 [] w)
    as [(data & Hrun)|(j & Hj & Hrun & Hfail)].
  - left. by exists data.
  - right. eexists j, _. split_and!; [|exact Hrun|exact Hfail].
    unfold batches, batches_of. rewrite list_lookup_fmap.
    by rewrite lookup_seq_lt.
Qed.

(** X7: for a batch size of at least 1, whatever the embedder answers,
    [embed_batches] either returns after sending every batch, or raises at
    the first batch the embedder fails on: the vectors of the batches
    before it are not returned and no batch after it is sent. *)
Theorem embed_batches_fails_closed (texts : list pystr) (batch_size : Z)
    (w : World) :
  (1 ≤ batch_size)%Z →
  let batches := batches_of texts batch_size
                   (Z.to_nat (ceil_div (len texts) batch_size)) in
  (∃ vectors,
     embed_batches texts batch_size w
     = (Ok vectors, set_embed_calls (embed_calls w ++ batches) w))
  ∨ (∃ (j : nat) b, batches !! j = Some b
       ∧ embed_batches texts batch_size w
         = (Raise ServiceError,
            set_embed_calls (embed_calls w ++ take (S j) batches) w)
       ∧ embeddings_response (embed_calls w ++ take j batches) b = None).
Proof. apply embed_batches_run. Qed.

(** X8: for a batch size of at least 1, whatever the embedder answers,
    every batch that [embed_batches] sends holds at least one text and at
    most [batch_size] texts. *)
Theorem embed_batches_batch_sizes (texts : list pystr) (batch_size : Z)
    (w : World) :
  (1 ≤ batch_size)%Z →
  ∃ sent,
    embed_calls (embed_batches texts batch_size w).2 = embed_calls w ++ sent
    ∧ Forall (λ b, (1 ≤ len b ≤ batch_size)%Z) sent.
Proof.
  intros Hb.
  destruct (embed_batches_run texts batch_size w Hb)
    as [(vectors & ->)|(j & b & _ & -> & _)]; simpl.
  - eexists. split; [done|]. apply Forall_forall. intros b.
    by apply batches_bounds.
  - eexists. split; [done|]. apply Forall_forall. intros b' Hin.
    apply subseteq_take in Hin. by apply (batches_bounds texts).
Qed.

(** X9: with a batch size of 0 [embed_batches] raises [ValueError], with a
    negative batch size it returns the empty list whatever the texts, and
    without texts it returns the empty list; in none of these cases is the
    embedder called. *)
Theorem embed_batches_no_call (texts : list pystr) (batch_size : Z)
    (w : World) :
  (batch_size ≤ 0)%Z ∨ (texts = [] ∧ batch_size ≠ 0%Z) →
  embed_batches texts batch_size w
  = (if decide (batch_size = 0%Z) then Raise ValueError else Ok [], w).
Proof.
  intros Hcase. unfold embed_batches, py_range.
  case_decide as Hzero; [done|].
  assert (range_length 0 (len texts) batch_size = 0%Z) as ->; [|done].
  unfold range_length. pose proof (len_nonneg texts).
  destruct Hcase as [Hneg|[-> _]].
  - rewrite decide_False by lia. by rewrite decide_False by lia.
  - unfold len. simpl. by repeat case_decide.
Qed.
End embed_batches_outcome.

(** Three texts in batches of two when the second call fails: both batches
    were sent, and nothing is returned. *)
Lemma embed_batches_fails_closed_witness :
  (1 ≤ 2)%Z
  ∧ @embed_batches second_call_fails [py "a"; py "b"; py "c"] 2 empty_world
    = (Raise ServiceError,
       set_embed_calls [[py "a"; py "b"]; [py "c"]] empty_world).
Proof.
  split; [lia|].
  destruct (@embed_batches_fails_closed second_call_fails
              [py "a"; py "b"; py "c"] 2 empty_world ltac:(lia))
    as [(vectors & Hrun)|(j & b & _ & Hrun & _)].
  - vm_compute in Hrun. discriminate.
  - vm_compute. reflexivity.
Defined.

Lemma embed_batches_batch_sizes_witness :
  (1 ≤ 2)%Z
  ∧ ∃ sent,
      embed_calls
        (@embed_batches second_call_fails [py "a"; py "b"; py "c"] 2
           empty_world).2 = embed_calls empty_world ++ sent
      ∧ Forall (λ b, (1 ≤ len b ≤ 2)%Z) sent.
Proof.
  split; [lia|].
  apply (@embed_batches_batch_sizes second_call_fails). lia.
Defined.

(** A negative batch size: no call, and the empty list for two texts. *)
Lemma embed_batches_no_call_witness :
  ((-1 ≤ 0)%Z ∨ ([py "a"; py "b"] = [] ∧ (-1)%Z ≠ 0%Z))
  ∧ @embed_batches length_embedder [py "a"; py "b"] (-1) empty_world
    = (Ok [], empty_world).
Proof.
  assert ((-1 ≤ 0)%Z ∨ ([py "a"; py "b"] = [] ∧ (-1)%Z ≠ 0%Z)) as Hcase
    by (left; lia).
  split; [exact Hcase|].
  exact (@embed_batches_no_call length_embedder [py "a"; py "b"] (-1)
           empty_world Hcase).
Defined.

(** *** ingest_single_pdf: what it does to the store *)

#[local] Instance same_records_refl : Reflexive same_records.
Proof. by intros w. Qed.

#[local] Instance same_records_trans : Transitive same_records.
Proof.
  intros w1 w2 w3 [H1 D1] [H2 D2]. split; [|congruence].
  intros col. by rewrite H2, H1.
Qed.

#[local] Instance appends_refl col : Reflexive (appends col).
Proof. intros w. split_and!; [|done..]. exists []. by rewrite app_nil_r. Qed.

#[local] Instance appends_trans col : Transitive (appends col).
Proof.
  intros w1 w2 w3 ([a1 H1] & O1 & D1) ([a2 H2] & O2 & D2).
  split_and!; [|intros col' Hne; by rewrite O2, O1|congruence].
  exists (a1 ++ a2). by rewrite H2, H1, (assoc_L (++)).
Qed.

Lemma same_records_appends col w w' : same_records w w' → appends col w w'.
Proof.
  intros [Hrec Hdir]. split_and!; [|done..].
  exists []. by rewrite app_nil_r.
Qed.

Section confined.
Context {R : World → World → Prop} `{!Reflexive R, !Transitive R}.
Context (E : abort → Prop).

Lemma confined_ret {A} (a : A) : confined R E (mret a).
Proof. intros w. split; [done | by intros ?]. Qed.

Lemma confined_lift {A} (r : result A) :
  (∀ a, abort_of r = Some a → E a) → confined R E (lift r).
Proof. intros Hr w. by split. Qed.

Lemma confined_bind {A B} (m : M A) (f : A → M B) :
  confined R E m → (∀ a, confined R E (f a)) → confined R E (m ≫= f).
Proof.
  intros Hm Hf w. unfold mbind, M_mbind, M_bind.
  destruct (Hm w) as [Hw Habort]. destruct (m w) as [[a|e|] w1]; simpl in *.
  - destruct (Hf a w1) as [Hw1 Habort1]. split; [by etrans | done].
  - by split.
  - by split.
Qed.

Lemma confined_for_each {A S} (body : S → A → M S) (l : list A) (s : S) :
  (∀ s x, confined R E (body s x)) → confined R E (for_each body l s).
Proof.
  intros Hbody. revert s. induction l as [|x l IH]; intros s.
  - apply confined_ret.
  - apply confined_bind; [apply Hbody | apply IH].
Qed.
End confined.

Lemma confined_weaken {A} (R R' : World → World → Prop) (E E' : abort → Prop)
    (m : M A) :
  (∀ w w', R w w' → R' w w') → (∀ a, E a → E' a) →
  confined R E m → confined R' E' m.
Proof. intros HR HE Hm w. destruct (Hm w). split; auto. Qed.

Lemma py_while_outcome {S} (cond : S → bool) (body : S → S) fuel (s : S) :
  abort_of (py_while cond body fuel s) = None
  ∨ abort_of (py_while cond body fuel s) = Some Diverged.
Proof.
  revert s. induction fuel as [|fuel IH]; intros s; simpl; [by right|].
  destruct (cond s); [apply IH | by left].
Qed.

Lemma chunk_text_outcome `{Encoding} fuel text max_tokens overlap a :
  abort_of (chunk_text fuel text max_tokens overlap) = Some a → a = Diverged.
Proof.
  unfold chunk_text, chunk_loop.
  destruct (py_while_outcome (chunk_cond (encode text))
              (chunk_body decode (encode text) max_tokens overlap) fuel
              (0%Z, [])) as [Hok|Hdiv];
    destruct (py_while _ _ _ _); simpl in *; congruence.
Qed.

Section ingest_frame.
Context `{Encoding, EmbeddingClient, Entropy}.

Lemma ingest_page_confined fuel name st entry :
  confined same_records (λ a, a = Diverged) (ingest_page fuel name st entry).
Proof.
  destruct st as [[[ids docs] metas] page_count].
  destruct entry as [page_no page_text]. unfold ingest_page.
  case_decide; [apply confined_ret|].
  apply confined_bind; [apply confined_lift, chunk_text_outcome|].
  intros page_chunks. apply confined_bind; [|intros; apply confined_ret].
  apply confined_for_each. intros [[ids' docs'] metas'] [idx chunk].
  unfold ingest_chunk. apply confined_bind; [|intros; apply confined_ret].
  intros w. by split.
Qed.

Lemma embed_batches_confined texts :
  confined same_records (λ a, a = Raised ServiceError)
    (embed_batches texts 64).
Proof.
  unfold embed_batches.
  apply confined_bind; [by apply confined_lift|].
  intros starts. apply confined_for_each. intros all_vecs i.
  unfold embed_batch_step.
  apply confined_bind; [|intros; apply confined_ret].
  intros w. unfold embeddings_create.
  destruct (embeddings_response _ _); simpl; split; try done.
  by intros a [= <-].
Qed.

Lemma col_add_confined col ids docs metas vectors :
  confined (appends col)
    (λ a, a = Raised ValueError ∨ a = Raised DuplicateIDError)
    (col_add col ids docs metas vectors).
Proof.
  intros w. unfold col_add. repeat case_decide; simpl.
  - split; [|done]. split_and!; [|intros col' Hne|done].
    + eexists. unfold collection_records at 1. simpl.
      by rewrite lookup_insert_eq.
    + unfold collection_records. simpl. by rewrite lookup_insert_ne.
  - split; [reflexivity|]. intros a [= <-]. by right.
  - split; [reflexivity|]. intros a [= <-]. by left.
Qed.

Lemma get_or_create_collection_confined path name :
  confined same_records (λ _, False) (get_or_create_collection path name).
Proof.
  intros w.
  destruct (get_or_create_collection_spec path name w)
    as (w' & -> & _ & _ & Hdir & Hrec). simpl. by split.
Qed.

(** The run of [ingest_single_pdf], whatever the collaborators do. *)
Lemma ingest_frame fuel name reader_pages vectordir collection_name w :
  let run := ingest_single_pdf fuel name reader_pages vectordir
               collection_name w in
  appends (vectordir, collection_name) w run.2
  ∧ (abort_of run.1 = Some (Raised ServiceError)
     ∨ abort_of run.1 = Some Diverged → same_records w run.2)
  ∧ (∀ a, abort_of run.1 = Some a →
       a = Diverged ∨ a = Raised ServiceError ∨ a = Raised ValueError
       ∨ a = Raised DuplicateIDError).
Proof.
  intros run. unfold run, ingest_single_pdf, mbind, M_mbind, M_bind.
  destruct (get_or_create_collection_spec vectordir collection_name w)
    as (w1 & -> & _ & _ & Hdir1 & Hrec1).
  assert (same_records w w1) as Hw1 by done.
  destruct (confined_for_each (λ a, a = Diverged) (ingest_page fuel name)
              (pdf_to_pages reader_pages) ([], [], [], 0%Z)
              (ingest_page_confined fuel name) w1) as [Hw2 Hout2].
  destruct (for_each _ _ _ w1) as [[[[[ids docs] metas] page_count]|e|] w2];
    simpl in *.
  - assert (same_records w w2) as Hww2 by (by etrans).
    case_decide as Hdocs; [by split_and!; [apply same_records_appends|..]|].
    destruct (embed_batches_confined docs w2) as [Hw3 Hout3].
    destruct (embed_batches docs 64 w2) as [[vectors|e|] w3]; simpl in *.
    + assert (same_records w w3) as Hww3 by (by etrans).
      match goal with
      | |- context [for_each ?body ?l ?s w3] =>
          destruct (confined_for_each (R:=appends (vectordir, collection_name))
                      (λ a, a = Raised ValueError
                            ∨ a = Raised DuplicateIDError) body l s
                      (λ _ i, col_add_confined _ _ _ _ _) w3) as [Hw4 Hout4];
          destruct (for_each body l s w3) as [[[]|e|] w4]
      end; simpl in *.
      * split_and!; [|intros [|]; done|done].
        etrans; [by apply same_records_appends|done].
      * specialize (Hout4 _ eq_refl) as [[= ->]|[= ->]];
          (split_and!; [|intros [|]; done|intros a [= <-]; auto]);
          (etrans; [by apply same_records_appends|done]).
      * by specialize (Hout4 _ eq_refl) as [|].
    + specialize (Hout3 _ eq_refl) as [= ->].
      assert (same_records w w3) as Hww3 by (by etrans).
      split_and!; [by apply same_records_appends|done|].
      intros a [= <-]. auto.
    + by specialize (Hout3 _ eq_refl).
  - by specialize (Hout2 _ eq_refl).
  - assert (same_records w w2) as Hww2 by (by etrans).
    split_and!; [by apply same_records_appends|done|].
    intros a [= <-]. auto.
Qed.

(** X10: whatever the embedder answers and however the run ends,
    [ingest_single_pdf] only appends: the collection holds the records it
    held, in their order, followed by the added ones; the other
    collections and the data directory are unchanged. *)
Theorem ingest_only_appends fuel name reader_pages vectordir collection_name
    w :
  let w' := (ingest_single_pdf fuel name reader_pages vectordir
               collection_name w).2 in
  (∃ added,
     collection_records (vectordir, collection_name) w'
     = collection_records (vectordir, collection_name) w ++ added)
  ∧ (∀ col, col ≠ (vectordir, collection_name) →
       collection_records col w' = collection_records col w)
  ∧ data_dir w' = data_dir w.
Proof. apply ingest_frame. Qed.

(** X11: when [ingest_single_pdf] ends on the failure of an embedding
    call, no record was written and no file touched: indexing starts only
    after every embedding of the document is there. *)
Theorem ingest_embedding_failure fuel name reader_pages vectordir
    collection_name w :
  (ingest_single_pdf fuel name reader_pages vectordir collection_name w).1
  = Raise ServiceError →
  (∀ col,
     collection_records col
       (ingest_single_pdf fuel name reader_pages vectordir
          collection_name w).2
     = collection_records col w)
  ∧ data_dir
      (ingest_single_pdf fuel name reader_pages vectordir collection_name w).2
    = data_dir w.
Proof.
  intros Hrun.
  destruct (ingest_frame fuel name reader_pages vectordir collection_name w)
    as (_ & Hsame & _).
  rewrite Hrun in Hsame. simpl in *. apply Hsame. by left.
Qed.
End ingest_frame.

Lemma ingest_embedding_failure_witness :
  let run := @ingest_single_pdf codepoint_encoding failing_embedder
               fixed_entropy 5 (py "a.pdf") [Some (py "some text")]
               CHROMA EDU_TUTOR two_documents in
  run.1 = Raise ServiceError
  ∧ collection_records (CHROMA, EDU_TUTOR) run.2
    = collection_records (CHROMA, EDU_TUTOR) two_documents.
Proof.
  intros run.
  assert (run.1 = Raise ServiceError) as Hrun by (vm_compute; reflexivity).
  split; [exact Hrun|].
  by apply (@ingest_embedding_failure codepoint_encoding failing_embedder
              fixed_entropy 5 (py "a.pdf") [Some (py "some text")]
              CHROMA EDU_TUTOR two_documents Hrun).
Defined.

(** *** ingest_single_pdf: a document that is indexed *)

Lemma enumerate_snd {A} (start : Z) (l : list A) : (enumerate start l).*2 = l.
Proof.
  unfold enumerate. rewrite fmap_imap.
  rewrite (imap_ext _ (const id)) by done.
  by rewrite imap_const, list_fmap_id.
Qed.

Lemma length_py_slice_eq {A B} (l : list A) (k : list B) (lo hi : Z) :
  length l = length k → length (py_slice l lo hi) = length (py_slice k lo hi).
Proof.
  intros Hlen. unfold py_slice, len.
  by rewrite !length_take, !length_drop, Hlen.
Qed.

Lemma zip_records_slice ids docs metas vectors (lo hi : Z) :
  length docs = length ids → length metas = length ids →
  length vectors = length ids →
  zip_records (py_slice ids lo hi) (py_slice docs lo hi)
    (py_slice metas lo hi) (py_slice vectors lo hi)
  = py_slice (zip_records ids docs metas vectors) lo hi.
Proof.
  intros Hd Hm Hv. unfold zip_records, py_slice, len.
  rewrite length_fmap, !length_zip_with, Hd, Hm, Hv, !Nat.min_id.
  by rewrite <- fmap_drop, <- fmap_take, !zip_with_drop, !zip_with_take.
Qed.

Lemma zip_records_fields ids docs metas vectors :
  length docs = length ids → length metas = length ids →
  length vectors = length ids →
  rec_document <$> zip_records ids docs metas vectors = Some <$> docs
  ∧ rec_metadata <$> zip_records ids docs metas vectors = Some <$> metas
  ∧ rec_embedding <$> zip_records ids docs metas vectors = vectors
  ∧ length (zip_records ids docs metas vectors) = length ids.
Proof.
  unfold zip_records. revert docs metas vectors.
  induction ids as [|i ids IH]; intros [|d docs] [|m metas] [|v vectors];
    simpl; try done.
  intros [= Hd] [= Hm] [= Hv].
  destruct (IH docs metas vectors Hd Hm Hv) as (IH1 & IH2 & IH3 & IH4).
  split_and!; csimpl; f_equal; assumption.
Qed.

Lemma zip_records_embedded (is_embedding_of : pystr → vector → Prop)
    ids docs metas vectors :
  Forall2 is_embedding_of docs vectors →
  Forall (λ r, ∃ d, rec_document r = Some d
                    ∧ is_embedding_of d (rec_embedding r))
    (zip_records ids docs metas vectors).
Proof.
  intros Hal. revert ids metas.
  induction Hal as [|d v docs vectors Hdv Hal IH]; intros ids metas.
  - unfold zip_records. destruct ids; simpl; constructor.
  - unfold zip_records in *. destruct ids as [|i ids]; [constructor|].
    destruct metas as [|m metas]; [constructor|].
    simpl. constructor; [by exists d | apply IH].
Qed.

(** *** The chunk ids *)

Lemma py_inj (s1 s2 : string) : py s1 = py s2 → s1 = s2.
Proof.
  revert s2. induction s1 as [|a s1 IH]; intros [|b s2]; try done.
  unfold py. simpl. intros [= Hab Hrest]. apply Nat2N.inj in Hab.
  f_equal; [|by apply IH].
  rewrite <- (Ascii.ascii_nat_embedding a), <- (Ascii.ascii_nat_embedding b).
  by rewrite Hab.
Qed.

(** The digits of a number hold no dash. *)
Lemma pretty_N_go_no_dash (x : N) (s : string) :
  45%N ∉ py s → 45%N ∉ py (pretty_N_go x s).
Proof.
  revert s. induction (N.lt_wf_0 x) as [x _ IH]; intros s Hs.
  assert (x = 0 ∨ 0 < x)%N as [->|?] by lia.
  - by rewrite pretty_N_go_0.
  - rewrite pretty_N_go_step by done. apply IH; [by apply N.div_lt|].
    unfold py. simpl. apply not_elem_of_cons. split; [|done].
    unfold pretty_N_char. by repeat case_match.
Qed.

Lemma pretty_Z_no_dash (z : Z) : (0 ≤ z)%Z → 45%N ∉ py (pretty z).
Proof.
  destruct z as [|p|p]; [| |lia]; intros _.
  - unfold py. simpl. apply not_elem_of_cons. split; [done|].
    apply not_elem_of_nil.
  - unfold pretty, pretty_Z, pretty, pretty_positive, pretty, pretty_N.
    rewrite decide_False by done. apply pretty_N_go_no_dash.
    apply not_elem_of_nil.
Qed.

Lemma app_sep_inj {A} (sep : A) (a a' b b' : list A) :
  sep ∉ a → sep ∉ a' → a ++ sep :: b = a' ++ sep :: b' → a = a' ∧ b = b'.
Proof.
  revert a'. induction a as [|x a IH]; intros [|x' a'] Ha Ha'; simpl.
  - by intros [= ->].
  - intros [= -> _]. exfalso. apply Ha'. by left.
  - intros [= -> _]. exfalso. apply Ha. by left.
  - intros [= -> Heq]. apply not_elem_of_cons in Ha as [_ Ha].
    apply not_elem_of_cons in Ha' as [_ Ha'].
    by destruct (IH a' Ha Ha' Heq) as [-> ->].
Qed.

(** A chunk id determines its page, its index and the digits of its
    UUID. *)
Lemma chunk_id_inj name (p i : Z) hex (p' i' : Z) hex' :
  (0 ≤ p)%Z → (0 ≤ i)%Z → (0 ≤ p')%Z → (0 ≤ i')%Z →
  chunk_id name p i hex = chunk_id name p' i' hex' →
  p = p' ∧ i = i' ∧ py_slice hex 0 8 = py_slice hex' 0 8.
Proof.
  intros Hp Hi Hp' Hi'. unfold chunk_id. intros Heq.
  do 2 apply app_inv_head in Heq.
  assert (py "-" = [45%N]) as Hdash by done. rewrite Hdash in Heq.
  apply (app_sep_inj 45%N) in Heq as [Hpage Heq];
    [|by apply pretty_Z_no_dash..].
  apply (app_sep_inj 45%N) in Heq as [Hidx Heq];
    [|by apply pretty_Z_no_dash..].
  apply py_inj, (inj pretty) in Hpage. apply py_inj, (inj pretty) in Hidx.
  done.
Qed.

Section cohort_ids.
Context `{Entropy}.

Lemma cohort_ids_length name (entries : list (Z * pystr))
    (css : list (list pystr)) drawn :
  length entries = length css →
  length (cohort_ids name entries css drawn) = length (concat css).
Proof.
  revert css drawn.
  induction entries as [|e entries IH]; intros [|cs css] drawn; simpl;
    try done.
  intros [= Hlen]. by rewrite !length_app, length_imap, IH.
Qed.

Lemma cohort_ids_elem name (entries : list (Z * pystr))
    (css : list (list pystr)) drawn id :
  id ∈ cohort_ids name entries css drawn →
  ∃ (p : Z) (i m : nat),
    id = chunk_id name p (Z.of_nat i) (uuid4_hex m)
    ∧ p ∈ entries.*1
    ∧ drawn ≤ m < drawn + length (concat css).
Proof.
  revert css drawn.
  induction entries as [|e entries IH]; intros [|cs css] drawn; simpl;
    try (by intros ?%elem_of_nil).
  intros [Hin|Hin]%elem_of_app.
  - apply elem_of_lookup_imap in Hin as (j & c & -> & Hj).
    apply lookup_lt_Some in Hj.
    exists e.1, j, (drawn + j). split_and!; [done|by left|lia|].
    rewrite length_app. lia.
  - destruct (IH css _ Hin) as (p & i & m & -> & Hp & Hm).
    exists p, i, m. split_and!; [done|by right|lia|].
    rewrite length_app. lia.
Qed.

Lemma cohort_ids_NoDup name (entries : list (Z * pystr))
    (css : list (list pystr)) drawn :
  NoDup entries.*1 → Forall (λ p, (0 ≤ p)%Z) entries.*1 →
  NoDup (cohort_ids name entries css drawn).
Proof.
  revert css drawn.
  induction entries as [|e entries IH]; intros [|cs css] drawn; simpl;
    try (intros; by apply NoDup_nil).
  intros [Hnew Hnd]%NoDup_cons [Hpos Hposs]%Forall_cons.
  apply NoDup_app. split_and!.
  - apply NoDup_alt. intros i j id Hi Hj.
    rewrite list_lookup_imap in Hi, Hj.
    destruct (cs !! i); [|done]. destruct (cs !! j); [|done].
    simpl in *. injection Hi as <-. injection Hj as Hj.
    apply chunk_id_inj in Hj as (_ & Hidx & _); lia.
  - intros id Hin Hin'.
    apply elem_of_lookup_imap in Hin as (j & c & -> & Hj).
    destruct (cohort_ids_elem _ _ _ _ _ Hin') as (p & i & m & Hid & Hp & _).
    apply chunk_id_inj in Hid as (Hpage & _); [by rewrite <- Hpage in Hp|try lia..].
    rewrite Forall_forall in Hposs. by apply Hposs.
  - by apply IH.
Qed.
End cohort_ids.

Lemma pdf_to_pages_numbers (reader_pages : list (option pystr)) :
  NoDup (pdf_to_pages reader_pages).*1
  ∧ Forall (λ p, (0 ≤ p)%Z) (pdf_to_pages reader_pages).*1.
Proof.
  assert (∀ (j : nat) p, (pdf_to_pages reader_pages).*1 !! j = Some p →
            p = (1 + Z.of_nat j)%Z) as Hnum.
  { intros j p. unfold pdf_to_pages, enumerate.
    rewrite !list_lookup_fmap, list_lookup_imap.
    destruct (reader_pages !! j); simpl; [|done]. by intros [= <-]. }
  split.
  - apply NoDup_alt. intros i j p Hi%Hnum Hj%Hnum. lia.
  - apply Forall_forall. intros p [j Hj%Hnum]%list_elem_of_lookup_1. lia.
Qed.

Lemma filter_ext_in {A} (P Q : A → Prop) `{!∀ x, Decision (P x)}
    `{!∀ x, Decision (Q x)} (l : list A) :
  (∀ x, x ∈ l → P x ↔ Q x) → filter P l = filter Q l.
Proof.
  induction l as [|x l IH]; intros Hext; [done|].
  rewrite !filter_cons. rewrite IH by (intros y Hy; apply Hext; by right).
  destruct (decide (P x)) as [HP|HP], (decide (Q x)) as [HQ|HQ]; try done.
  - destruct HQ. apply Hext; [by left|done].
  - destruct HP. apply Hext; [by left|done].
Qed.

Lemma zip_records_ids ids docs metas vectors :
  length docs = length ids → length metas = length ids →
  length vectors = length ids →
  rec_id <$> zip_records ids docs metas vectors = ids.
Proof.
  unfold zip_records. revert docs metas vectors.
  induction ids as [|i ids IH]; intros [|d docs] [|m metas] [|v vectors];
    simpl; try done.
  intros [= Hd] [= Hm] [= Hv]. csimpl. f_equal. by apply IH.
Qed.

Section ingest_success.
Context `{Encoding, EmbeddingClient, Entropy}.

Lemma ingest_chunks_run name page_no (l : list (Z * pystr)) ids docs metas w :
  for_each (ingest_chunk name page_no) l (ids, docs, metas) w
  = (Ok (ids ++ imap (λ j entry, chunk_id name page_no entry.1
                                   (uuid4_hex (uuids_drawn w + j))) l,
         docs ++ l.*2,
         metas ++ replicate (length l) (chunk_meta name page_no)),
     set_uuids_drawn (uuids_drawn w + length l) w).
Proof.
  unfold chunk_meta. revert ids docs metas w.
  induction l as [|[idx chunk] l IH]; intros ids docs metas w.
  - simpl. rewrite !app_nil_r, Nat.add_0_r. by destruct w.
  - rewrite for_each_cons.
    set (w1 := set_uuids_drawn (S (uuids_drawn w)) w).
    erewrite M_bind_ok; [|unfold ingest_chunk; by erewrite M_bind_ok].
    fold w1. rewrite IH. rewrite imap_cons. simpl.
    rewrite <- !(assoc_L (++)). simpl. rewrite Nat.add_0_r.
    f_equal.
    + do 5 f_equal. apply imap_ext. intros j entry _. simpl.
      do 2 f_equal. lia.
    + unfold w1, set_uuids_drawn. simpl. f_equal. lia.
Qed.

Lemma ingest_pages_run fuel name (entries : list (Z * pystr))
    (css : list (list pystr)) ids docs metas (page_count : Z) w :
  Forall2 (page_chunks_are fuel) entries css →
  for_each (ingest_page fuel name) entries (ids, docs, metas, page_count) w
  = (Ok (ids ++ cohort_ids name entries css (uuids_drawn w),
         docs ++ concat css,
         metas ++ pages_metas name entries css,
         (page_count + len entries)%Z),
     set_uuids_drawn (uuids_drawn w + length (concat css)) w).
Proof.
  intros Hcss. revert ids docs metas page_count w.
  induction Hcss as [|[page_no text] cs entries css Hcs Hcss IH];
    intros ids docs metas page_count w.
  - unfold pages_metas, len. simpl.
    rewrite !app_nil_r, Nat.add_0_r, Z.add_0_r. by destruct w.
  - rewrite for_each_cons. unfold page_chunks_are in Hcs. simpl in Hcs.
    unfold pages_metas. cbn [zip_with concat fst cohort_ids].
    fold (pages_metas name entries css).
    assert (len ((page_no, text) :: entries) = 1 + len entries)%Z as Hlen
      by (unfold len; simpl; lia).
    case_decide as Htext.
    + subst cs.
      erewrite M_bind_ok; [|unfold ingest_page; by rewrite decide_True].
      rewrite IH. simpl. rewrite Nat.add_0_r. do 3 f_equal. lia.
    + pose proof (ingest_chunks_run name page_no (enumerate 0 cs) ids docs
                    metas w) as Hchunks.
      rewrite enumerate_snd in Hchunks.
      assert (length (enumerate 0 cs) = length cs) as Hecs
        by (unfold enumerate; apply length_imap).
      rewrite Hecs in Hchunks.
      assert (imap (λ j entry, chunk_id name page_no entry.1
                                 (uuid4_hex (uuids_drawn w + j)))
                (enumerate 0 cs)
              = imap (λ j _, chunk_id name page_no (Z.of_nat j)
                               (uuid4_hex (uuids_drawn w + j))) cs) as Hids.
      { apply list_eq. intros j. unfold enumerate.
        rewrite !list_lookup_imap. by destruct (cs !! j). }
      rewrite Hids in Hchunks.
      set (w1 := set_uuids_drawn (uuids_drawn w + length cs) w) in *.
      erewrite M_bind_ok; last first.
      { unfold ingest_page. rewrite decide_False by done.
        erewrite M_bind_ok; [|unfold lift; by rewrite Hcs].
        by erewrite M_bind_ok by exact Hchunks. }
      rewrite IH. simpl. rewrite <- !(assoc_L (++)).
      f_equal; [do 2 f_equal; lia|].
      unfold w1, set_uuids_drawn. simpl. f_equal.
      rewrite length_app. lia.
Qed.

Lemma page_chunks_exist fuel (entries : list (Z * pystr)) :
  Forall (λ entry, length (encode entry.2) < fuel) entries →
  ∃ css, Forall2 (page_chunks_are fuel) entries css.
Proof.
  induction 1 as [|[page_no text] entries Hfuel _ [css IH]];
    [by exists []|].
  simpl in Hfuel. unfold page_chunks_are at 1.
  destruct (decide (text = [])) as [->|Htext].
  - exists ([] :: css). constructor; [|done].
    unfold page_chunks_are. simpl. by repeat case_decide.
  - destruct (chunk_windows_valid (encode text) 500 80 ltac:(lia) fuel)
      as [_ Hrun].
    eexists (_ :: css). constructor; [|done].
    unfold page_chunks_are. simpl. rewrite decide_False by done.
    unfold chunk_text. rewrite Hrun. rewrite decide_False; [done|].
    assert (ceil_div (len (encode text)) (500 - 80)
            < len (encode text) + 1)%Z; [|unfold len in *; lia].
    unfold ceil_div. pose proof (len_nonneg (encode text)).
    apply Z.div_lt_upper_bound; lia.
Qed.

Lemma pdf_to_pages_fuel fuel (reader_pages : list (option pystr)) :
  Forall (λ page, length (encode (clean (default [] page))) < fuel)
    reader_pages →
  Forall (λ entry, length (encode entry.2) < fuel) (pdf_to_pages reader_pages).
Proof.
  intros Hfuel. unfold pdf_to_pages, enumerate.
  rewrite Forall_fmap. apply Forall_forall.
  intros [i page] Hin. simpl.
  apply list_elem_of_lookup in Hin as [j Hj].
  rewrite list_lookup_imap in Hj.
  destruct (reader_pages !! j) as [page'|] eqn:Hpage; [|done].
  simpl in Hj. injection Hj as _ <-.
  by eapply Forall_lookup_1 in Hfuel.
Qed.

(** The batches of [col.add]: after the batches before [j0 + count], the
    collection holds the records it held when the loop began ([base]) and
    the first [(j0 + count) * 256] new records, less those whose id it
    held. *)
Lemma add_loop_run col ids docs metas vectors (base : list Rec)
    (count j0 : nat) w :
  length docs = length ids → length metas = length ids →
  length vectors = length ids →
  NoDup ids →
  (∀ j, j < j0 + count → j * 256 < length ids) →
  collection_records col w
  = base ++ filter (λ r, rec_id r ∉ rec_id <$> base)
              (take (j0 * 256) (zip_records ids docs metas vectors)) →
  ∃ w',
    for_each (add_step col ids docs metas vectors 256)
      ((λ j : nat, (Z.of_nat j * 256)%Z) <$> seq j0 count) () w
    = (Ok (), w')
    ∧ collection_records col w'
      = base ++ filter (λ r, rec_id r ∉ rec_id <$> base)
                  (take ((j0 + count) * 256)
                     (zip_records ids docs metas vectors))
    ∧ (∀ col', col' ≠ col →
         collection_records col' w' = collection_records col' w)
    ∧ embed_calls w' = embed_calls w
    ∧ data_dir w' = data_dir w
    ∧ uuids_drawn w' = uuids_drawn w.
Proof.
  intros Hd Hm Hv Hnd. revert j0 w.
  set (recs := zip_records ids docs metas vectors).
  assert (rec_id <$> recs = ids) as Hids by (by apply zip_records_ids).
  induction count as [|c IH]; intros j0 w Hbatch Hrec.
  - exists w. simpl. by rewrite Nat.add_0_r.
  - cbn [seq fmap list_fmap]. rewrite for_each_cons.
    set (lo := (Z.of_nat j0 * 256)%Z).
    assert (py_slice recs lo (lo + 256) = take 256 (drop (j0 * 256) recs))
      as Hslice.
    { unfold lo. rewrite py_slice_window by lia. do 2 f_equal. lia. }
    assert (filter (λ r, rec_id r ∉ rec_id <$> collection_records col w)
              (py_slice recs lo (lo + 256))
            = filter (λ r, rec_id r ∉ rec_id <$> base)
                (take 256 (drop (j0 * 256) recs))) as Hfilter.
    { rewrite Hslice. apply filter_ext_in. intros r Hr.
      rewrite Hrec, fmap_app, not_elem_of_app. split; [by intros []|].
      intros Hbase. split; [done|]. intros Hheld.
      apply list_elem_of_fmap in Hheld as (r' & Hid & Hr').
      apply list_elem_of_filter in Hr' as [_ Hr'].
      rewrite <- Hids, <- (take_drop (j0 * 256) recs), fmap_app in Hnd.
      apply NoDup_app in Hnd as (_ & Hdisj & _).
      apply (Hdisj (rec_id r)).
      - rewrite Hid. by apply list_elem_of_fmap_2.
      - apply list_elem_of_fmap_2. by eapply subseteq_take. }
    set (w1 := set_chroma
                 (<[col := base
                           ++ filter (λ r, rec_id r ∉ rec_id <$> base)
                                (take ((j0 + 1) * 256) recs)]> (chroma w)) w).
    assert (add_step col ids docs metas vectors 256 () lo w = (Ok (), w1))
      as Hstep.
    { unfold add_step, col_add.
      assert (length (py_slice ids lo (lo + 256)) ≠ 0) as Hne.
      { unfold lo. rewrite py_slice_window by lia.
        rewrite length_take, length_drop.
        specialize (Hbatch j0 ltac:(lia)). lia. }
      rewrite decide_True; last first.
      { split_and!; [by intros Hnil; rewrite Hnil in Hne|
                     apply length_py_slice_eq; done..]. }
      rewrite decide_True; last first.
      { unfold lo. rewrite py_slice_window by lia.
        eapply sublist_NoDup; [exact Hnd|].
        etrans; [apply sublist_take | apply sublist_drop]. }
      rewrite zip_records_slice by done. fold recs. rewrite Hfilter.
      unfold w1. do 3 f_equal. rewrite Hrec, <- (assoc_L (++)). f_equal.
      rewrite <- filter_app. f_equal.
      rewrite take_take_drop. f_equal. lia. }
    destruct (IH (S j0) w1) as (w' & Hrun & Hrec' & Hother & Hcalls & Hdir & Hu).
    { intros j Hj. apply Hbatch. lia. }
    { unfold w1, collection_records at 1. simpl.
      rewrite lookup_insert_eq. simpl. do 3 f_equal. lia. }
    exists w'. erewrite M_bind_ok by exact Hstep.
    split_and!; [done| | |done..].
    + rewrite Hrec'. do 3 f_equal. lia.
    + intros col' Hne. rewrite Hother by done.
      unfold w1, collection_records. simpl. by rewrite lookup_insert_ne.
Qed.
End ingest_success.

Lemma length_pages_metas name (entries : list (Z * pystr))
    (css : list (list pystr)) :
  length entries = length css →
  length (pages_metas name entries css) = length (concat css).
Proof.
  unfold pages_metas. revert css.
  induction entries as [|e entries IH]; intros [|cs css]; simpl; try done.
  intros [= Hlen]. by rewrite !length_app, length_replicate, IH.
Qed.

Lemma pages_metas_source name (entries : list (Z * pystr))
    (css : list (list pystr)) m :
  m ∈ pages_metas name entries css → m !! "source" = Some (MStr name).
Proof.
  unfold pages_metas. revert css.
  induction entries as [|e entries IH]; intros [|cs css]; simpl;
    try (by intros ?%elem_of_nil).
  intros [Hin|Hin]%elem_of_app; [|by eapply IH].
  apply elem_of_replicate_inv in Hin as ->.
  unfold chunk_meta. by rewrite lookup_insert_eq.
Qed.

Section ingest_run.
Context `{Encoding, EmbeddingClient, Entropy}.
Context (is_embedding_of : pystr → vector → Prop).
Context (aligned : ∀ history batch, ∃ data,
            embeddings_response history batch = Some data
            ∧ Forall2 is_embedding_of batch data).

(** The run of [ingest_single_pdf] when the embedder answers: [cohort]
    are the records made of the chunks, of which the collection takes
    those whose id it does not hold. *)
Lemma ingest_run fuel name reader_pages vectordir collection_name w css :
  Forall2 (page_chunks_are fuel) (pdf_to_pages reader_pages) css →
  ∃ w' cohort,
    ingest_single_pdf fuel name reader_pages vectordir collection_name w
    = (Ok {| pages := len reader_pages; chunks := len (concat css) |}, w')
    ∧ rec_id <$> cohort
      = cohort_ids name (pdf_to_pages reader_pages) css (uuids_drawn w)
    ∧ NoDup (rec_id <$> cohort)
    ∧ collection_records (vectordir, collection_name) w'
      = collection_records (vectordir, collection_name) w
        ++ filter (λ r, rec_id r
                        ∉ rec_id <$> collection_records
                                       (vectordir, collection_name) w)
             cohort
    ∧ rec_document <$> cohort = Some <$> concat css
    ∧ rec_metadata <$> cohort
      = Some <$> pages_metas name (pdf_to_pages reader_pages) css
    ∧ Forall (λ r, ∃ d, rec_document r = Some d
                        ∧ is_embedding_of d (rec_embedding r)) cohort
    ∧ (∀ col, col ≠ (vectordir, collection_name) →
         collection_records col w' = collection_records col w)
    ∧ data_dir w' = data_dir w
    ∧ embed_calls w'
      = embed_calls w
        ++ batches_of (concat css) 64
             (Z.to_nat (ceil_div (len (concat css)) 64))
    ∧ uuids_drawn w' = uuids_drawn w + length (concat css).
Proof.
  intros Hcss.
  destruct (get_or_create_collection_spec vectordir collection_name w)
    as (w1 & Hcol & Hcalls1 & Hu1 & Hdir1 & Hrec1).
  pose proof (ingest_pages_run fuel name _ css [] [] [] 0%Z w1 Hcss)
    as Hpages.
  simpl in Hpages. rewrite Hu1 in Hpages.
  set (ids := cohort_ids name (pdf_to_pages reader_pages) css (uuids_drawn w))
    in *.
  set (w2 := set_uuids_drawn (uuids_drawn w + length (concat css)) w1) in *.
  set (docs := concat css) in *.
  set (metas := pages_metas name (pdf_to_pages reader_pages) css) in *.
  assert (length metas = length docs) as Hmetas.
  { apply length_pages_metas. by eapply Forall2_length. }
  assert (length ids = length docs) as Hids.
  { apply cohort_ids_length. by eapply Forall2_length. }
  assert (NoDup ids) as Hnd.
  { destruct (pdf_to_pages_numbers reader_pages).
    by apply cohort_ids_NoDup. }
  assert ((0 + len (pdf_to_pages reader_pages))%Z = len reader_pages)
    as Hcount by (unfold len; rewrite pdf_to_pages_length; lia).
  unfold ingest_single_pdf.
  erewrite M_bind_ok by exact Hcol.
  erewrite M_bind_ok by exact Hpages.
  cbv beta iota. rewrite Hcount. case_decide as Hdocs.
  - exists w2, []. rewrite Hdocs. unfold batches_of, len. simpl.
    rewrite !app_nil_r, Nat.add_0_r.
    assert (ids = []) as Hnil by (apply nil_length_inv; by rewrite Hids, Hdocs).
    assert (metas = []) as Hnil'
      by (apply nil_length_inv; by rewrite Hmetas, Hdocs).
    rewrite Hnil, Hnil'. split_and!; try done.
    + apply NoDup_nil_2.
    + apply Hrec1.
    + intros col _. apply Hrec1.
    + rewrite Hdocs. simpl. lia.
  - destruct (embed_batches_spec is_embedding_of aligned docs 64 w2
                ltac:(lia)) as (vectors & Hembed & Hal).
    set (w3 := set_embed_calls
                 (embed_calls w2
                  ++ batches_of docs 64
                       (Z.to_nat (ceil_div (len docs) 64))) w2) in *.
    pose proof (Forall2_length _ _ _ Hal) as Hvectors.
    destruct (stride_count_spec (len docs) 256) as [Hlt Hge];
      [apply len_nonneg | lia |].
    destruct (add_loop_run (vectordir, collection_name) ids docs metas
                vectors (collection_records (vectordir, collection_name) w)
                (Z.to_nat (ceil_div (len docs) 256)) 0 w3)
      as (w4 & Hadd & Hrec4 & Hother4 & Hcalls4 & Hdir4 & Hu4);
      [lia..|done| | |].
    { intros j Hj. specialize (Hlt j ltac:(lia)). unfold len in *. lia. }
    { change (0 * 256) with 0. rewrite take_0, filter_nil, app_nil_r.
      apply Hrec1. }
    destruct (zip_records_fields ids docs metas vectors)
      as (Hf1 & Hf2 & Hf3 & Hf4); [lia..|].
    rewrite take_ge in Hrec4 by (rewrite Hf4; unfold len in *; lia).
    exists w4, (zip_records ids docs metas vectors).
    split_and!; try done.
    + erewrite M_bind_ok by exact Hembed.
      erewrite M_bind_ok;
        [| unfold lift; by rewrite range_from_zero by (apply len_nonneg || done)].
      by erewrite M_bind_ok by exact Hadd.
    + apply zip_records_ids; lia.
    + rewrite zip_records_ids by lia. done.
    + by apply zip_records_embedded.
    + intros col Hne. rewrite Hother4 by done. apply Hrec1.
    + by rewrite Hdir4.
    + rewrite Hcalls4. unfold w3. simpl. by rewrite Hcalls1.
Qed.
End ingest_run.

Lemma filter_all {A} (P : A → Prop) `{!∀ x, Decision (P x)} (l : list A) :
  Forall P l → filter P l = l.
Proof.
  induction 1 as [|x l Hx _ IH]; [done|].
  by rewrite filter_cons_True, IH.
Qed.

Lemma filter_none {A} (P : A → Prop) `{!∀ x, Decision (P x)} (l : list A) :
  Forall (λ x, ¬ P x) l → filter P l = [].
Proof.
  induction 1 as [|x l Hx _ IH]; [done|].
  by rewrite filter_cons_False.
Qed.

Lemma cohort_source name (entries : list (Z * pystr)) (css : list (list pystr))
    (cohort : list Rec) :
  rec_metadata <$> cohort = Some <$> pages_metas name entries css →
  Forall (λ r, rec_source r = Some (MStr name)) cohort.
Proof.
  intros Hmeta. apply Forall_forall. intros r Hr.
  assert (rec_metadata r ∈ rec_metadata <$> cohort) as Hin
    by (apply list_elem_of_fmap; eauto).
  rewrite Hmeta in Hin. apply list_elem_of_fmap in Hin as (m & Hm & Hin).
  unfold rec_source. rewrite Hm. simpl. by eapply pages_metas_source.
Qed.

(** The run of [delete_pdf]. *)
Lemma delete_pdf_world (filename : pystr) (w : World) :
  delete_pdf filename w
  = (Ok true,
     set_chroma
       (<[(CHROMA, EDU_TUTOR) :=
            filter (λ r, ¬ matches_where {[ "source" := MStr filename ]} r)
              (collection_records (CHROMA, EDU_TUTOR) w)]>
          (match chroma w !! (CHROMA, EDU_TUTOR) with
           | Some _ => chroma w
           | None => <[(CHROMA, EDU_TUTOR) := []]> (chroma w)
           end))
       (set_data_dir (data_dir w ∖ {[filename]}) w)).
Proof.
  assert (∀ w0 : World, filename ∉ data_dir w0 →
            set_data_dir (data_dir w0 ∖ {[filename]}) w0 = w0) as Hsame.
  { intros [dir c calls n] Hnot. unfold set_data_dir. simpl in *.
    f_equal. set_solver. }
  unfold delete_pdf, mbind, M_mbind, M_bind, unlink_if_exists,
    get_or_create_collection, col_delete, collection_records.
  destruct (decide (filename ∈ data_dir w)) as [Hin|Hnot].
  - simpl. destruct (chroma w !! (CHROMA, EDU_TUTOR)) eqn:Hcol; simpl.
    + by rewrite Hcol.
    + by rewrite lookup_insert_eq.
  - rewrite (Hsame w Hnot).
    destruct (chroma w !! (CHROMA, EDU_TUTOR)) eqn:Hcol; simpl.
    + by rewrite Hcol.
    + by rewrite lookup_insert_eq.
Qed.

Lemma delete_pdf_run (filename : pystr) (w : World) :
  ∃ w',
    delete_pdf filename w = (Ok true, w')
    ∧ collection_records (CHROMA, EDU_TUTOR) w'
      = filter (λ r, rec_source r ≠ Some (MStr filename))
          (collection_records (CHROMA, EDU_TUTOR) w)
    ∧ (∀ col, col ≠ (CHROMA, EDU_TUTOR) →
         collection_records col w' = collection_records col w).
Proof.
  eexists. split; [apply delete_pdf_world|]. split.
  - unfold collection_records at 1. simpl. rewrite lookup_insert_eq. simpl.
    apply list_filter_iff. intros r. by rewrite matches_source.
  - intros col Hne. unfold collection_records. simpl.
    rewrite lookup_insert_ne by done.
    destruct (chroma w !! (CHROMA, EDU_TUTOR)); [done|].
    by rewrite lookup_insert_ne.
Qed.


(** X13: under the same conditions, ingesting a document into the default
    collection and then deleting it by its file name gives back the
    records the collection held, when none of them had that source; the
    other collections are as before. *)
Theorem ingest_then_delete `{Encoding, EmbeddingClient, Entropy}
    (is_embedding_of : pystr → vector → Prop) (fuel : nat) (name : pystr)
    (reader_pages : list (option pystr)) (w : World) :
  (∀ history batch, ∃ data,
      embeddings_response history batch = Some data
      ∧ Forall2 is_embedding_of batch data) →
  Forall (λ page, length (encode (clean (default [] page))) < fuel)
    reader_pages →
  Forall (λ r, rec_source r ≠ Some (MStr name))
    (collection_records (CHROMA, EDU_TUTOR) w) →
  ∃ stats w1 w2,
    ingest_single_pdf fuel name reader_pages CHROMA EDU_TUTOR w
    = (Ok stats, w1)
    ∧ delete_pdf name w1 = (Ok true, w2)
    ∧ collection_records (CHROMA, EDU_TUTOR) w2
      = collection_records (CHROMA, EDU_TUTOR) w
    ∧ ∀ col, col ≠ (CHROMA, EDU_TUTOR) →
        collection_records col w2 = collection_records col w.
Proof.
  intros Haligned Hfuel Hfresh.
  destruct (page_chunks_exist fuel (pdf_to_pages reader_pages)
              (pdf_to_pages_fuel fuel reader_pages Hfuel)) as [css Hcss].
  destruct (ingest_run is_embedding_of Haligned fuel name reader_pages
              CHROMA EDU_TUTOR w css Hcss)
    as (w1 & cohort & Hrun & _ & _ & Hrec & _ & Hmetas & _ & Hother & _).
  destruct (delete_pdf_run name w1) as (w2 & Hdel & Hrec2 & Hother2).
  eexists _, w1, w2. split_and!; [done..| |].
  - rewrite Hrec2, Hrec, filter_app, filter_all by done.
    rewrite filter_none; [by rewrite app_nil_r|].
    apply Forall_forall. intros r [_ Hr]%list_elem_of_filter.
    pose proof (cohort_source _ _ _ _ Hmetas) as Hsource.
    rewrite Forall_forall in Hsource. specialize (Hsource r Hr).
    simpl. by intros [].
  - intros col Hne. by rewrite Hother2, Hother.
Qed.

(** X14: under the same conditions, when the UUIDs the two runs draw
    differ in their first eight digits and no id the collection holds was
    made from one of them, ingesting a document a second time replaces
    nothing and skips nothing: the collection then holds its former
    records, the records of the first run and those of the second run,
    under ids that are all distinct, the two runs having the same
    documents and metadata. *)
Theorem ingest_twice `{Encoding, EmbeddingClient, Entropy}
    (is_embedding_of : pystr → vector → Prop) (fuel : nat) (name : pystr)
    (reader_pages : list (option pystr)) (vectordir collection_name : pystr)
    (w : World) :
  let run1 := ingest_single_pdf fuel name reader_pages vectordir
                collection_name w in
  let run2 := ingest_single_pdf fuel name reader_pages vectordir
                collection_name run1.2 in
  (∀ history batch, ∃ data,
      embeddings_response history batch = Some data
      ∧ Forall2 is_embedding_of batch data) →
  Forall (λ page, length (encode (clean (default [] page))) < fuel)
    reader_pages →
  (∀ i j, uuids_drawn w ≤ i < j → j < uuids_drawn run2.2 →
          py_slice (uuid4_hex i) 0 8 ≠ py_slice (uuid4_hex j) 0 8) →
  (∀ r n page idx,
     r ∈ collection_records (vectordir, collection_name) w →
     uuids_drawn w ≤ n < uuids_drawn run2.2 →
     rec_id r ≠ chunk_id name page idx (uuid4_hex n)) →
  ∃ stats first second,
    run1.1 = Ok stats
    ∧ run2.1 = Ok stats
    ∧ collection_records (vectordir, collection_name) run2.2
      = collection_records (vectordir, collection_name) w ++ first ++ second
    ∧ length first = Z.to_nat (chunks stats)
    ∧ NoDup (rec_id <$> first ++ second)
    ∧ rec_document <$> second = rec_document <$> first
    ∧ rec_metadata <$> second = rec_metadata <$> first.
Proof.
  intros run1 run2 Haligned Hfuel Hdistinct Hfresh.
  destruct (page_chunks_exist fuel (pdf_to_pages reader_pages)
              (pdf_to_pages_fuel fuel reader_pages Hfuel)) as [css Hcss].
  destruct (ingest_run is_embedding_of Haligned fuel name reader_pages
              vectordir collection_name w css Hcss)
    as (w1 & first & Hrun1 & Hids1 & Hnd1 & Hrec1 & Hdocs1 & Hmetas1 & _ & _
        & _ & _ & Hdrawn1).
  destruct (ingest_run is_embedding_of Haligned fuel name reader_pages
              vectordir collection_name w1 css Hcss)
    as (w2 & second & Hrun2 & Hids2 & Hnd2 & Hrec2 & Hdocs2 & Hmetas2 & _ & _
        & _ & _ & Hdrawn2).
  unfold run2, run1 in *. rewrite Hrun1 in *. simpl in *.
  rewrite Hrun2 in *. simpl in *.
  set (total := length (concat css)) in *.
  destruct (pdf_to_pages_numbers reader_pages) as [_ Hpages].
  rewrite Forall_forall in Hpages.
  assert (∀ r, r ∈ first →
            ∃ (p : Z) (i m : nat),
              rec_id r = chunk_id name p (Z.of_nat i) (uuid4_hex m)
              ∧ (0 ≤ p)%Z ∧ uuids_drawn w ≤ m < uuids_drawn w + total)
    as Hfirst.
  { intros r Hr.
    assert (rec_id r ∈ rec_id <$> first) as Hin
      by (by apply list_elem_of_fmap_2).
    rewrite Hids1 in Hin.
    apply cohort_ids_elem in Hin as (p & i & m & Hid & Hp & Hm).
    exists p, i, m. split_and!; [done|by apply Hpages|lia..]. }
  assert (∀ r, r ∈ second →
            ∃ (p : Z) (i m : nat),
              rec_id r = chunk_id name p (Z.of_nat i) (uuid4_hex m)
              ∧ (0 ≤ p)%Z
              ∧ uuids_drawn w + total ≤ m < uuids_drawn w + total + total)
    as Hsecond.
  { intros r Hr.
    assert (rec_id r ∈ rec_id <$> second) as Hin
      by (by apply list_elem_of_fmap_2).
    rewrite Hids2, Hdrawn1 in Hin.
    apply cohort_ids_elem in Hin as (p & i & m & Hid & Hp & Hm).
    exists p, i, m. split_and!; [done|by apply Hpages|lia..]. }
  assert (∀ r r', r ∈ first → r' ∈ second → rec_id r ≠ rec_id r') as Hdisj.
  { intros r r' (p & i & m & Hid & Hp & Hm)%Hfirst
      (p' & i' & m' & Hid' & Hp' & Hm')%Hsecond Heq.
    rewrite Hid, Hid' in Heq.
    apply chunk_id_inj in Heq as (_ & _ & Hhex); [|lia..].
    by apply (Hdistinct m m'); [lia..|]. }
  assert (filter (λ r, rec_id r
                       ∉ rec_id <$> collection_records
                                      (vectordir, collection_name) w) first
          = first) as Hall1.
  { apply filter_all, Forall_forall.
    intros r Hr [r0 [Heq Hr0]]%list_elem_of_fmap.
    destruct (Hfirst r Hr) as (p & i & m & Hid & _ & Hm).
    apply (Hfresh r0 m p (Z.of_nat i)); [done|lia|congruence]. }
  rewrite Hall1 in Hrec1.
  assert (filter (λ r, rec_id r
                       ∉ rec_id <$> collection_records
                                      (vectordir, collection_name) w1) second
          = second) as Hall2.
  { apply filter_all, Forall_forall.
    intros r Hr [r0 [Heq Hr0]]%list_elem_of_fmap.
    rewrite Hrec1 in Hr0. apply elem_of_app in Hr0 as [Hr0|Hr0].
    - destruct (Hsecond r Hr) as (p & i & m & Hid & _ & Hm).
      apply (Hfresh r0 m p (Z.of_nat i)); [done|lia|congruence].
    - by apply (Hdisj r0 r). }
  rewrite Hall2, Hrec1 in Hrec2.
  eexists _, first, second. split_and!; [done..| | | | |].
  - by rewrite Hrec2, (assoc_L (++)).
  - simpl. unfold len. rewrite Nat2Z.id.
    apply (f_equal length) in Hdocs1. by rewrite !length_fmap in Hdocs1.
  - rewrite fmap_app. apply NoDup_app. split_and!; [done| |done].
    intros id [r [-> Hr]]%list_elem_of_fmap [r' [Heq Hr']]%list_elem_of_fmap.
    by apply (Hdisj r r').
  - by rewrite Hdocs2, Hdocs1.
  - by rewrite Hmetas2, Hmetas1.
Qed.

(** The embedder of the examples answers every batch in line with it. *)
Lemma length_embedder_aligned history batch :
  ∃ data,
    @embeddings_response length_embedder history batch = Some data
    ∧ Forall2 (λ text v, v = length_vector text) batch data.
Proof.
  exists (length_vector <$> batch). split; [done|].
  induction batch; by constructor.
Qed.

Lemma example_pages_fuel :
  Forall (λ page,
            length (@encode codepoint_encoding (clean (default [] page)))
            < 100)
    [Some (py "  ab   cd "); None].
Proof. repeat constructor; vm_compute; lia. Qed.

Lemma two_documents_fresh :
  Forall (λ r, rec_source r ≠ Some (MStr (py "c.pdf")))
    (collection_records (CHROMA, EDU_TUTOR) two_documents).
Proof.
  apply Forall_forall. intros r Hr. vm_compute in Hr.
  repeat (apply elem_of_cons in Hr as [->|Hr]; [by vm_compute|]).
  by apply elem_of_nil in Hr.
Qed.

(** The store of the examples holds no chunk id of the file c.pdf. *)
Lemma two_documents_new_ids `{Entropy} r (n : nat) (page idx : Z) :
  r ∈ collection_records (CHROMA, EDU_TUTOR) two_documents →
  rec_id r ≠ chunk_id (py "c.pdf") page idx (uuid4_hex n).
Proof.
  intros Hr. unfold chunk_id.
  assert (∃ rest, rec_id r = 105%N :: rest) as [rest ->].
  { vm_compute in Hr.
    repeat (apply elem_of_cons in Hr as [->|Hr]; [by eexists|]).
    by apply elem_of_nil in Hr. }
  discriminate.
Qed.


Lemma ingest_then_delete_witness :
  Forall (λ r, rec_source r ≠ Some (MStr (py "c.pdf")))
    (collection_records (CHROMA, EDU_TUTOR) two_documents)
  ∧ ∃ stats w1 w2,
      @ingest_single_pdf codepoint_encoding length_embedder fixed_entropy 100
        (py "c.pdf") [Some (py "  ab   cd "); None] CHROMA EDU_TUTOR
        two_documents = (Ok stats, w1)
      ∧ delete_pdf (py "c.pdf") w1 = (Ok true, w2)
      ∧ collection_records (CHROMA, EDU_TUTOR) w2
        = collection_records (CHROMA, EDU_TUTOR) two_documents.
Proof.
  split; [exact two_documents_fresh|].
  destruct (@ingest_then_delete codepoint_encoding length_embedder
              fixed_entropy (λ text v, v = length_vector text) 100
              (py "c.pdf") [Some (py "  ab   cd "); None] two_documents
              length_embedder_aligned example_pages_fuel two_documents_fresh)
    as (stats & w1 & w2 & Hrun & Hdel & Hrec & _).
  by exists stats, w1, w2.
Defined.

(** X14 with the random source that counts: the two runs draw the UUIDs
    numbered 0 and 1. *)
Lemma ingest_twice_witness :
  let run1 := @ingest_single_pdf codepoint_encoding length_embedder
                counting_entropy 100 (py "c.pdf")
                [Some (py "  ab   cd "); None] CHROMA EDU_TUTOR
                two_documents in
  let run2 := @ingest_single_pdf codepoint_encoding length_embedder
                counting_entropy 100 (py "c.pdf")
                [Some (py "  ab   cd "); None] CHROMA EDU_TUTOR run1.2 in
  Forall (λ page,
            length (@encode codepoint_encoding (clean (default [] page)))
            < 100)
    [Some (py "  ab   cd "); None]
  ∧ (∀ i j, uuids_drawn two_documents ≤ i < j → j < uuids_drawn run2.2 →
       py_slice (@uuid4_hex counting_entropy i) 0 8
       ≠ py_slice (@uuid4_hex counting_entropy j) 0 8)
  ∧ (∀ r n page idx,
       r ∈ collection_records (CHROMA, EDU_TUTOR) two_documents →
       uuids_drawn two_documents ≤ n < uuids_drawn run2.2 →
       rec_id r
       ≠ chunk_id (py "c.pdf") page idx (@uuid4_hex counting_entropy n))
  ∧ ∃ first second,
      collection_records (CHROMA, EDU_TUTOR) run2.2
      = collection_records (CHROMA, EDU_TUTOR) two_documents
        ++ first ++ second
      ∧ length first = 1
      ∧ NoDup (rec_id <$> first ++ second)
      ∧ rec_document <$> second = rec_document <$> first.
Proof.
  intros run1 run2.
  assert (uuids_drawn run2.2 = 2) as Hdrawn by (vm_compute; reflexivity).
  assert (∀ i j, uuids_drawn two_documents ≤ i < j → j < uuids_drawn run2.2 →
            py_slice (@uuid4_hex counting_entropy i) 0 8
            ≠ py_slice (@uuid4_hex counting_entropy j) 0 8) as Hdistinct.
  { intros i j Hij Hj. rewrite Hdrawn in Hj.
    assert (i = 0 ∧ j = 1) as [-> ->] by lia. by vm_compute. }
  assert (∀ r n page idx,
            r ∈ collection_records (CHROMA, EDU_TUTOR) two_documents →
            uuids_drawn two_documents ≤ n < uuids_drawn run2.2 →
            rec_id r
            ≠ chunk_id (py "c.pdf") page idx (@uuid4_hex counting_entropy n))
    as Hfresh.
  { intros r n page idx Hr _.
    by apply (@two_documents_new_ids counting_entropy). }
  split; [exact example_pages_fuel|]. split; [exact Hdistinct|].
  split; [exact Hfresh|].
  destruct (@ingest_twice codepoint_encoding length_embedder counting_entropy
              (λ text v, v = length_vector text) 100 (py "c.pdf")
              [Some (py "  ab   cd "); None] CHROMA EDU_TUTOR two_documents
              length_embedder_aligned example_pages_fuel Hdistinct Hfresh)
    as (stats & first & second & Hrun1 & _ & Hrec & Hlen & Hnd & Hdocs & _).
  exists first, second. split_and!; [done| |done..].
  rewrite Hlen. vm_compute in Hrun1. by injection Hrun1 as <-.
Defined.

(** With the random source that repeats its UUID the second run makes the
    id of the first again, and the store keeps the record it holds: the
    second run returns its counts and writes nothing. *)
Example ingest_twice_same_uuid :
  let run1 := @ingest_single_pdf codepoint_encoding length_embedder
                fixed_entropy 100 (py "c.pdf")
                [Some (py "  ab   cd "); None] CHROMA EDU_TUTOR
                two_documents in
  let run2 := @ingest_single_pdf codepoint_encoding length_embedder
                fixed_entropy 100 (py "c.pdf")
                [Some (py "  ab   cd "); None] CHROMA EDU_TUTOR run1.2 in
  length (collection_records (CHROMA, EDU_TUTOR) run1.2) = 5
  ∧ run2.1 = Ok {| pages := 2; chunks := 1 |}
  ∧ collection_records (CHROMA, EDU_TUTOR) run2.2
    = collection_records (CHROMA, EDU_TUTOR) run1.2.
Proof. by vm_compute. Qed.

(** *** delete_pdf and retrieve: what they leave alone *)

(** X15: deleting a document a second time changes nothing: the world
    after two calls of [delete_pdf] is the world after one. *)
Theorem delete_pdf_idempotent (filename : pystr) (w : World) :
  delete_pdf filename (delete_pdf filename w).2
  = (Ok true, (delete_pdf filename w).2).
Proof.
  rewrite (delete_pdf_world filename w). cbn [snd].
  rewrite delete_pdf_world. f_equal.
  unfold collection_records, set_chroma, set_data_dir. simpl.
  rewrite !lookup_insert_eq. simpl. rewrite insert_insert_eq.
  rewrite list_filter_filter_l by done.
  f_equal. set_solver.
Qed.

Section retrieve_effects.
Context `{EmbeddingClient, VectorIndex}.

(** X16: however it ends, [retrieve] makes exactly one embedding call, for
    the query alone, and changes nothing else: not the store, not the data
    directory; and it raises when that call fails. *)
Theorem retrieve_read_only (q : pystr) (k : Z) (w : World) :
  (retrieve q k w).2 = set_embed_calls (embed_calls w ++ [[q]]) w
  ∧ (embeddings_response (embed_calls w) [q] = None →
     (retrieve q k w).1 = Raise ServiceError).
Proof.
  unfold retrieve, embed, col_query, embeddings_create, lift,
    mbind, M_mbind, M_bind, mret, M_mret, M_ret.
  destruct (embeddings_response (embed_calls w) [q]) as [data|]; simpl;
    [|done].
  split; [|done].
  destruct (py_first data); simpl; [|done..].
  destruct (index_query _ _ _) as [res| |]; simpl; [|done..].
  repeat (match goal with
          | |- context [py_first ?l] => destruct (py_first l); simpl; [|done..]
          end).
  by destruct (retrieve_loop _ _ _) as [[[? ?] ?] ?].
Qed.
End retrieve_effects.

(** *** ingest_pdf_background *)

(** X17: the background ingestion of an upload never raises: an exception
    of the ingestion is swallowed and the task ends normally, in the world
    the ingestion left; after a failed embedding call that world holds
    the records it held before. *)
Theorem ingest_pdf_background_swallows `{Encoding, EmbeddingClient, Entropy}
    (fuel : nat) (dest_name : pystr) (reader_pages : list (option pystr))
    (user_email filename : pystr) (w : World) :
  let ingest := ingest_single_pdf fuel dest_name reader_pages CHROMA
                  EDU_TUTOR w in
  let run := ingest_pdf_background fuel dest_name reader_pages user_email
               filename w in
  (∀ e, run.1 ≠ Raise e)
  ∧ run.2 = ingest.2
  ∧ (ingest.1 ≠ Diverge → run.1 = Ok ())
  ∧ (ingest.1 = Raise ServiceError →
     ∀ col, collection_records col run.2 = collection_records col w).
Proof.
  intros ingest run.
  destruct (ingest_frame fuel dest_name reader_pages CHROMA EDU_TUTOR w)
    as (_ & Hsame & _). fold ingest in Hsame.
  unfold run, ingest_pdf_background. fold ingest.
  destruct ingest as [[stats|e|] w']; simpl in *; split_and!; try done.
  intros [= ->]. by destruct Hsame as [Hrec _]; [left|].
Qed.

(** *** The memory store *)

Section sort_by.
Context {A : Type} (key : A → Z).

Lemma insert_by_first (x : A) (l : list A) :
  Forall (λ y, (key x < key y)%Z) l →
  insert_by (λ a b, (key a <=? key b)%Z) x l = x :: l.
Proof.
  destruct 1 as [|y l Hy _]; [done|]. simpl.
  by rewrite (proj2 (Z.leb_le _ _)) by lia.
Qed.

Lemma insert_by_last (x : A) (l : list A) :
  Forall (λ y, (key x < key y)%Z) l →
  insert_by (λ a b, (key b <=? key a)%Z) x l = l ++ [x].
Proof.
  induction 1 as [|y l Hy _ IH]; [done|]. simpl.
  rewrite (proj2 (Z.leb_gt _ _)) by lia. by rewrite IH.
Qed.

Lemma sort_by_ascending (l : list A) :
  StronglySorted (λ a b, (key a < key b)%Z) l →
  sort_by (λ a b, (key a <=? key b)%Z) l = l.
Proof.
  induction 1 as [|x l _ IH Hx]; [done|].
  unfold sort_by in *. simpl. rewrite IH. by apply insert_by_first.
Qed.

Lemma sort_by_descending (l : list A) :
  StronglySorted (λ a b, (key a < key b)%Z) l →
  sort_by (λ a b, (key b <=? key a)%Z) l = reverse l.
Proof.
  induction 1 as [|x l _ IH Hx]; [done|].
  unfold sort_by in *. simpl. rewrite IH, reverse_cons.
  apply insert_by_last. by rewrite Forall_reverse.
Qed.

Lemma StronglySorted_filter_key (P : A → Prop) `{!∀ x, Decision (P x)}
    (l : list A) :
  StronglySorted (λ a b, (key a < key b)%Z) l →
  StronglySorted (λ a b, (key a < key b)%Z) (filter P l).
Proof.
  induction 1 as [|x l _ IH Hx]; [constructor|].
  rewrite filter_cons. case_decide; [|done].
  constructor; [done|]. rewrite Forall_forall in Hx |- *.
  intros y [_ Hy]%list_elem_of_filter. by apply Hx.
Qed.
End sort_by.

Lemma insert_by_Permutation {A} (le : A → A → bool) (x : A) (l : list A) :
  insert_by le x l ≡ₚ x :: l.
Proof.
  induction l as [|y l IH]; [done|]. simpl.
  destruct (le x y); [done|]. rewrite IH. apply Permutation_swap.
Qed.

Lemma sort_by_Permutation {A} (le : A → A → bool) (l : list A) :
  sort_by le l ≡ₚ l.
Proof.
  induction l as [|x l IH]; [done|].
  unfold sort_by in *. simpl. by rewrite insert_by_Permutation, IH.
Qed.

Section memory_store.
Context `{PasswordContext, Clock, Json, DbEngine}.

(** The rows of a conversation, in the order of [get_messages]. *)
Lemma conversation_rows_ascending cid db :
  ids_ascending db →
  order_by_id_asc (filter (λ m, conversation_id m = cid) (messages db))
  = filter (λ m, conversation_id m = cid) (messages db)
  ∧ order_by_id_desc (filter (λ m, conversation_id m = cid) (messages db))
    = reverse (filter (λ m, conversation_id m = cid) (messages db)).
Proof.
  intros Hasc. unfold order_by_id_asc, order_by_id_desc.
  split; [apply sort_by_ascending | apply sort_by_descending];
    by apply StronglySorted_filter_key.
Qed.

(** X18: a user that registers with a free email can log in: for a hasher
    that verifies the hashes it makes, [create_user] returns [True] and
    [verify_user] with the same password then returns the email and the
    user name; the other users are as before. *)
Theorem create_then_verify (email username_ password : pystr)
    (db : Database) :
  (∀ n p, pwd_verify p (pwd_hash n p) = true) →
  users db !! email = None →
  ∃ db',
    create_user email username_ password db = (true, db')
    ∧ verify_user email password db' = Some (email, username_)
    ∧ (∀ other, other ≠ email → users db' !! other = users db !! other)
    ∧ conversations db' = conversations db
    ∧ messages db' = messages db.
Proof.
  intros Hverify Hfree. unfold create_user. simpl. rewrite Hfree.
  eexists. split; [done|]. unfold verify_user. simpl.
  rewrite lookup_insert_eq. simpl. rewrite Hverify.
  split_and!; [done| |done..].
  intros other Hne. by rewrite lookup_insert_ne.
Qed.

(** X19: the first registration of an email wins: [create_user] with a
    taken email returns [False] and leaves the tables as they are, so the
    password registered first still verifies and the new one does not
    replace it. *)
Theorem create_user_taken (email username_ password : pystr)
    (db : Database) (user : UserRow) :
  users db !! email = Some user →
  ∃ db',
    create_user email username_ password db = (false, db')
    ∧ users db' = users db
    ∧ conversations db' = conversations db
    ∧ messages db' = messages db
    ∧ ∀ e p, verify_user e p db' = verify_user e p db.
Proof.
  intros Htaken. unfold create_user. simpl. rewrite Htaken.
  eexists. by split_and!.
Qed.

(** X20: for an engine that numbers a new row above the ids of the table,
    a message added to a conversation (one that exists, or any when
    foreign keys are not enforced) is the last one [get_messages] returns
    for it, after those it returned before, with its role, its text and
    its sources ([None] for no or empty sources); the messages of the
    other conversations are as before, and the ids stay ascending. *)
Theorem add_then_get_messages (cid role_ content_ : pystr)
    (sources_ : option (list SourceRef)) (db : Database) :
  fresh_ids →
  ids_ascending db →
  foreign_keys = false ∨ is_Some (conversations db !! cid) →
  (∀ x l, sources_ = Some (x :: l) →
          dumps (x :: l) ≠ [] ∧ loads (dumps (x :: l)) = x :: l) →
  ∃ db',
    add_message cid role_ content_ sources_ db = (Done (), db')
    ∧ ids_ascending db'
    ∧ get_messages cid db'
      = get_messages cid db
        ++ [(role_, content_,
             match sources_ with
             | Some (x :: l) => Some (x :: l)
             | _ => None
             end)]
    ∧ (∀ cid', cid' ≠ cid → get_messages cid' db' = get_messages cid' db)
    ∧ users db' = users db.
Proof.
  intros Hfresh Hasc Hfk Hjson.
  set (msg := {| msg_id := next_id (rows_inserted db)
                             (msg_id <$> messages db);
                 conversation_id := cid; role := role_; content := content_;
                 sources := stored_sources sources_;
                 created_at := utcnow (clock_reads db) |}).
  assert (∃ db', add_message cid role_ content_ sources_ db = (Done (), db')
                 ∧ messages db' = messages db ++ [msg]
                 ∧ users db' = users db) as (db' & Hrun & Hmsgs & Husers).
  { unfold add_message. simpl. fold msg.
    destruct (conversations db !! cid) as [conv|] eqn:Hconv.
    - by eexists.
    - destruct Hfk as [->|[? [=]]]. by eexists. }
  assert (ids_ascending db') as Hasc'.
  { unfold ids_ascending. rewrite Hmsgs.
    apply StronglySorted_app_2; [|done|repeat constructor].
    intros a b Ha ->%list_elem_of_singleton. simpl.
    specialize (Hfresh (rows_inserted db) (msg_id <$> messages db)).
    rewrite Forall_fmap, Forall_forall in Hfresh. by apply Hfresh. }
  assert (loaded_sources msg
          = match sources_ with
            | Some (x :: l) => Some (x :: l)
            | _ => None
            end) as Hloaded.
  { unfold loaded_sources, msg, stored_sources. simpl.
    destruct sources_ as [[|x l]|]; [done| |done].
    destruct (Hjson x l eq_refl) as [Hne Hload].
    destruct (dumps (x :: l)) eqn:Hd; [done|]. by rewrite Hload. }
  exists db'. split_and!; [done..| | |done].
  - unfold get_messages.
    destruct (conversation_rows_ascending cid db Hasc) as [-> _].
    destruct (conversation_rows_ascending cid db' Hasc') as [-> _].
    rewrite Hmsgs, filter_app, fmap_app, filter_cons_True by done.
    simpl. by rewrite Hloaded.
  - intros cid' Hne. unfold get_messages. rewrite Hmsgs, filter_app.
    rewrite (filter_cons_False _ msg) by (simpl; congruence).
    by rewrite app_nil_r.
Qed.

(** X21: [transcript_text] renders the last [last_n] messages that
    [get_messages] returns for the conversation, oldest first, one line
    per message: "User: " before the text of the role "user" and
    "Assistant: " before any other. *)
Theorem transcript_text_last (cid : pystr) (last_n : nat) (db : Database) :
  ids_ascending db →
  let msgs := get_messages cid db in
  transcript_text cid last_n db
  = py_join [10%N]
      ((λ m, transcript_line m.1.1 m.1.2)
         <$> drop (length msgs - last_n) msgs).
Proof.
  intros Hasc msgs. unfold transcript_text, msgs, get_messages.
  destruct (conversation_rows_ascending cid db Hasc) as [-> ->].
  rewrite take_reverse, reverse_involutive, length_fmap.
  rewrite <- fmap_drop, <- list_fmap_compose. done.
Qed.

(** X22: [delete_conversation] removes a conversation only for its owner,
    and then with all its messages and nothing else: the other
    conversations and their messages, and the users, are as before; for
    another email, or an unknown id, the database is left as it is. *)
Theorem delete_conversation_scope (cid email : pystr) (db : Database) :
  ids_ascending db →
  let db' := delete_conversation cid email db in
  ids_ascending db'
  ∧ users db' = users db
  ∧ (∀ cid', cid' ≠ cid →
       conversations db' !! cid' = conversations db !! cid'
       ∧ get_messages cid' db' = get_messages cid' db)
  ∧ ((∃ conv, conversations db !! cid = Some conv ∧ user_email conv = email) →
     conversations db' !! cid = None ∧ get_messages cid db' = [])
  ∧ ((∀ conv, conversations db !! cid = Some conv → user_email conv ≠ email) →
     db' = db).
Proof.
  intros Hasc db'. unfold db', delete_conversation.
  destruct (conversations db !! cid) as [conv|] eqn:Hconv;
    [destruct (decide (user_email conv = email)) as [Hown|Hother]|].
  - split_and!.
    + unfold ids_ascending. simpl. by apply StronglySorted_filter_key.
    + done.
    + intros cid' Hne. simpl. rewrite lookup_delete_ne by done.
      split; [done|]. unfold get_messages. simpl.
      rewrite list_filter_filter. f_equal. f_equal.
      apply list_filter_iff. intros m. naive_solver.
    + intros _. simpl. rewrite lookup_delete_eq. split; [done|].
      unfold get_messages. simpl. rewrite list_filter_filter.
      rewrite filter_none; [done|]. apply Forall_forall. naive_solver.
    + intros Hno. by destruct (Hno conv eq_refl).
  - split_and!; try done. intros (conv' & [= <-] & Hown). done.
  - split_and!; try done. intros (conv' & [=] & _).
Qed.
(** X23: a conversation keeps its first owner: on an id that is free (for
    a known user, or any when foreign keys are not enforced)
    [create_conversation] stores the conversation with the given owner and
    title and touches nothing else; called again on that id, with whatever
    email and title, it changes nothing. *)
Theorem create_conversation_first_owner (cid email title_ : pystr)
    (db : Database) :
  conversations db !! cid = None →
  foreign_keys = false ∨ is_Some (users db !! email) →
  ∃ db',
    create_conversation cid email title_ db = (Done (), db')
    ∧ conversations db' !! cid
      = Some {| title := title_; user_email := email;
                updated_at := utcnow (clock_reads db) |}
    ∧ (∀ cid', cid' ≠ cid →
         conversations db' !! cid' = conversations db !! cid')
    ∧ users db' = users db
    ∧ messages db' = messages db
    ∧ ∀ email' title',
        create_conversation cid email' title' db' = (Done (), db').
Proof.
  intros Hfree Hfk. unfold create_conversation at 1. rewrite Hfree. simpl.
  assert (foreign_keys && bool_decide (users db !! email = None) = false)
    as ->.
  { destruct Hfk as [->|[user Huser]]; [done|].
    rewrite Huser, bool_decide_eq_false_2 by done. apply andb_false_r. }
  eexists. split; [done|]. simpl. split_and!; try done.
  - by rewrite lookup_insert_eq.
  - intros cid' Hne. by rewrite lookup_insert_ne.
  - intros email' title'. unfold create_conversation. simpl.
    by rewrite lookup_insert_eq.
Qed.

(** X24: for an engine whose [ORDER BY] returns the rows it is given,
    [get_all_conversations] lists the conversations of the user and no
    other: an id with a title is listed exactly when the table holds a
    conversation with that id, owner and title, and no id is listed
    twice. *)
Theorem get_all_conversations_owned (email : pystr) (db : Database) :
  (∀ rows, order_by_updated_desc rows ≡ₚ rows) →
  NoDup (get_all_conversations email db).*1
  ∧ ∀ cid title_,
      (cid, title_) ∈ get_all_conversations email db
      ↔ ∃ conv, conversations db !! cid = Some conv
                ∧ user_email conv = email ∧ title conv = title_.
Proof.
  intros Hperm. unfold get_all_conversations.
  set (rows := filter (λ row, user_email row.2 = email)
                 (map_to_list (conversations db))).
  split.
  - rewrite <- list_fmap_compose.
    change (NoDup (order_by_updated_desc rows).*1). rewrite (Hperm rows).
    apply (sublist_NoDup _ (map_to_list (conversations db)).*1).
    + apply NoDup_fst_map_to_list.
    + apply fmap_sublist, sublist_filter.
  - intros cid title_. rewrite list_elem_of_fmap. split.
    + intros ([cid' conv] & [= -> ->] & Hin). rewrite (Hperm rows) in Hin.
      apply list_elem_of_filter in Hin as [Hown Hin].
      apply elem_of_map_to_list in Hin. by exists conv.
    + intros (conv & Hconv & Hown & <-). exists (cid, conv).
      split; [done|]. rewrite (Hperm rows).
      apply list_elem_of_filter. split; [done|].
      by apply elem_of_map_to_list.
Qed.

(** X25: a message moves its conversation to the top of the list of its
    owner: for an engine that orders by the time of update, when the clock
    reads later than the updates of the other conversations,
    [get_all_conversations] lists the conversation of the added message
    first. *)
Theorem add_message_lists_first (cid role_ content_ : pystr)
    (sources_ : option (list SourceRef)) (db : Database)
    (conv : ConversationRow) :
  orders_by_update →
  conversations db !! cid = Some conv →
  (∀ cid' conv', cid' ≠ cid → conversations db !! cid' = Some conv' →
                 (updated_at conv' < utcnow (S (clock_reads db)))%Z) →
  ∃ db',
    add_message cid role_ content_ sources_ db = (Done (), db')
    ∧ head (get_all_conversations (user_email conv) db')
      = Some (cid, title conv).
Proof.
  intros Horder Hconv Hlater. unfold add_message. simpl. rewrite Hconv.
  eexists. split; [done|]. unfold get_all_conversations. simpl.
  set (conv' := {| title := title conv; user_email := user_email conv;
                   updated_at := utcnow (S (clock_reads db)) |}).
  set (rows := filter (λ row, user_email row.2 = user_email conv)
                 (map_to_list (<[cid:=conv']> (conversations db)))).
  destruct (Horder rows) as [Hperm Hsorted].
  assert ((cid, conv') ∈ order_by_updated_desc rows) as Hin.
  { rewrite Hperm. apply list_elem_of_filter. split; [done|].
    apply elem_of_map_to_list. by rewrite lookup_insert_eq. }
  destruct (order_by_updated_desc rows) as [|[cid1 conv1] rest] eqn:Hrows;
    [by apply elem_of_nil in Hin|].
  simpl. destruct (decide (cid1 = cid)) as [->|Hne].
  - assert ((cid, conv1) ∈ rows) as Hfirst
      by (rewrite <- Hperm; apply elem_of_cons; by left).
    apply list_elem_of_filter in Hfirst as [_ Hfirst].
    apply elem_of_map_to_list in Hfirst.
    rewrite lookup_insert_eq in Hfirst. by injection Hfirst as <-.
  - exfalso. apply elem_of_cons in Hin as [[= ? ?]|Hin]; [done|].
    apply StronglySorted_inv in Hsorted as [_ Hbelow].
    rewrite Forall_forall in Hbelow. specialize (Hbelow _ Hin). simpl in *.
    assert ((cid1, conv1) ∈ rows) as Hfirst
      by (rewrite <- Hperm; apply elem_of_cons; by left).
    apply list_elem_of_filter in Hfirst as [_ Hfirst].
    apply elem_of_map_to_list in Hfirst.
    rewrite lookup_insert_ne in Hfirst by done.
    specialize (Hlater cid1 conv1 Hne Hfirst). lia.
Qed.
End memory_store.

(** *** The memory store on the database of the examples *)

Lemma insert_by_descending {A} (key : A → Z) (x : A) (l : list A) :
  StronglySorted (λ a b, (key b ≤ key a)%Z) l →
  StronglySorted (λ a b, (key b ≤ key a)%Z)
    (insert_by (λ a b, (key b <=? key a)%Z) x l).
Proof.
  induction 1 as [|y l Hs IH Hy]; simpl; [repeat constructor|].
  destruct (key y <=? key x)%Z eqn:Hle.
  - apply Z.leb_le in Hle. constructor; [by constructor|].
    constructor; [done|]. eapply Forall_impl; [exact Hy|].
    simpl. intros; lia.
  - apply Z.leb_gt in Hle. constructor; [done|].
    rewrite Forall_forall in Hy |- *. intros z Hz.
    rewrite insert_by_Permutation in Hz.
    apply elem_of_cons in Hz as [->|Hz]; [lia|by apply Hy].
Qed.

Lemma plain_engine_orders : @orders_by_update plain_engine.
Proof.
  intros rows. split; [apply sort_by_Permutation|].
  unfold order_by_updated_desc, plain_engine, sort_by.
  induction rows as [|row rows IH]; [constructor|]. simpl.
  by apply (insert_by_descending (λ row, updated_at row.2)).
Qed.

Lemma plain_engine_fresh : @fresh_ids plain_engine.
Proof.
  intros n ids. simpl.
  assert (Forall (λ i, (i ≤ foldr Z.max 0 ids)%Z) ids) as Hmax.
  { induction ids as [|i ids IH]; constructor; simpl; [lia|].
    eapply Forall_impl; [exact IH|]. simpl. intros; lia. }
  eapply Forall_impl; [exact Hmax|]. simpl. intros; lia.
Qed.

Lemma numbered_hashes_verify n p :
  @pwd_verify numbered_hashes p (@pwd_hash numbered_hashes n p) = true.
Proof. simpl. by apply bool_decide_eq_true_2. Qed.

Lemma one_source_json_round_trip x l :
  Some one_source = Some (x :: l) →
  @dumps one_source_json (x :: l) ≠ []
  ∧ @loads one_source_json (@dumps one_source_json (x :: l)) = x :: l.
Proof. intros [= <- <-]. by split. Qed.

Lemma chat_database_ascending : ids_ascending chat_database.
Proof. repeat constructor. Qed.

Lemma chat_database_updates cid' conv' :
  cid' ≠ py "c0" →
  conversations chat_database !! cid' = Some conv' →
  (updated_at conv' < @utcnow counting_clock (S (clock_reads chat_database)))%Z.
Proof.
  intros Hne Hconv. simpl in Hconv.
  apply lookup_insert_Some in Hconv as [[_ <-]|[_ Hconv]]; [done|].
  by apply lookup_singleton_Some in Hconv as [<- _].
Qed.

(** X18 for bob, who registers beside ann. *)
Lemma create_then_verify_witness :
  (∀ n p, @pwd_verify numbered_hashes p (@pwd_hash numbered_hashes n p)
          = true)
  ∧ users chat_database !! py "bob@edu.org" = None
  ∧ ∃ db',
      @create_user numbered_hashes (py "bob@edu.org") (py "bob") (py "pw2")
        chat_database = (true, db')
      ∧ @verify_user numbered_hashes (py "bob@edu.org") (py "pw2") db'
        = Some (py "bob@edu.org", py "bob").
Proof.
  assert (users chat_database !! py "bob@edu.org" = None) as Hfree
    by (vm_compute; reflexivity).
  split; [exact numbered_hashes_verify|]. split; [exact Hfree|].
  destruct (@create_then_verify numbered_hashes (py "bob@edu.org") (py "bob")
              (py "pw2") chat_database numbered_hashes_verify Hfree)
    as (db' & Hcreate & Hverify & _).
  by exists db'.
Defined.

(** X19 for a second registration of the email of ann. *)
Lemma create_user_taken_witness :
  users chat_database !! py "ann@edu.org"
  = Some {| username := py "ann"; password_hash := 0%N :: py "pw" |}
  ∧ ∃ db',
      @create_user numbered_hashes (py "ann@edu.org") (py "eve") (py "pw2")
        chat_database = (false, db')
      ∧ users db' = users chat_database
      ∧ ∀ e p, @verify_user numbered_hashes e p db'
               = @verify_user numbered_hashes e p chat_database.
Proof.
  assert (users chat_database !! py "ann@edu.org"
          = Some {| username := py "ann"; password_hash := 0%N :: py "pw" |})
    as Htaken by (vm_compute; reflexivity).
  split; [exact Htaken|].
  destruct (@create_user_taken numbered_hashes (py "ann@edu.org") (py "eve")
              (py "pw2") chat_database _ Htaken)
    as (db' & Hcreate & Husers & _ & _ & Hverify).
  by exists db'.
Defined.

(** X20 for a third message of the conversation c1, with sources. *)
Lemma add_then_get_messages_witness :
  @fresh_ids plain_engine
  ∧ ids_ascending chat_database
  ∧ (@foreign_keys plain_engine = false
     ∨ is_Some (conversations chat_database !! py "c1"))
  ∧ (∀ x l, Some one_source = Some (x :: l) →
            @dumps one_source_json (x :: l) ≠ []
            ∧ @loads one_source_json (@dumps one_source_json (x :: l))
              = x :: l)
  ∧ ∃ db',
      @add_message counting_clock one_source_json plain_engine (py "c1")
        (py "user") (py "why?") (Some one_source) chat_database
      = (Done (), db')
      ∧ @get_messages one_source_json (py "c1") db'
        = @get_messages one_source_json (py "c1") chat_database
          ++ [(py "user", py "why?", Some one_source)].
Proof.
  split; [exact plain_engine_fresh|].
  split; [exact chat_database_ascending|].
  split; [by left|]. split; [exact one_source_json_round_trip|].
  destruct (@add_then_get_messages counting_clock one_source_json
              plain_engine (py "c1") (py "user") (py "why?")
              (Some one_source) chat_database plain_engine_fresh
              chat_database_ascending (or_introl eq_refl)
              one_source_json_round_trip)
    as (db' & Hadd & _ & Hget & _).
  by exists db'.
Defined.

(** X21 for the last message of the conversation c1. *)
Lemma transcript_text_last_witness :
  ids_ascending chat_database
  ∧ transcript_text (py "c1") 1 chat_database
    = py_join [10%N]
        ((λ m, transcript_line m.1.1 m.1.2)
           <$> drop
                 (length (@get_messages one_source_json (py "c1")
                            chat_database) - 1)
                 (@get_messages one_source_json (py "c1") chat_database)).
Proof.
  split; [exact chat_database_ascending|].
  exact (@transcript_text_last one_source_json (py "c1") 1 chat_database
           chat_database_ascending).
Defined.

(** X22 for ann, who deletes the conversation c1. *)
Lemma delete_conversation_scope_witness :
  ids_ascending chat_database
  ∧ conversations
      (delete_conversation (py "c1") (py "ann@edu.org") chat_database)
    !! py "c1" = None
  ∧ @get_messages one_source_json (py "c1")
      (delete_conversation (py "c1") (py "ann@edu.org") chat_database) = []
  ∧ conversations
      (delete_conversation (py "c1") (py "ann@edu.org") chat_database)
    !! py "c0" = conversations chat_database !! py "c0".
Proof.
  split; [exact chat_database_ascending|].
  destruct (@delete_conversation_scope one_source_json (py "c1")
              (py "ann@edu.org") chat_database chat_database_ascending)
    as (_ & _ & Hother & Hown & _).
  destruct Hown as [Hgone Hempty].
  { eexists. split; [by vm_compute|done]. }
  split; [exact Hgone|]. split; [exact Hempty|].
  by destruct (Hother (py "c0")).
Defined.

(** X23 for a third conversation of ann. *)
Lemma create_conversation_first_owner_witness :
  conversations chat_database !! py "c2" = None
  ∧ (@foreign_keys plain_engine = false
     ∨ is_Some (users chat_database !! py "ann@edu.org"))
  ∧ ∃ db',
      @create_conversation counting_clock plain_engine (py "c2")
        (py "ann@edu.org") (py "Series") chat_database = (Done (), db')
      ∧ ∀ email' title',
          @create_conversation counting_clock plain_engine (py "c2") email'
            title' db' = (Done (), db').
Proof.
  assert (conversations chat_database !! py "c2" = None) as Hfree
    by (vm_compute; reflexivity).
  split; [exact Hfree|]. split; [by left|].
  destruct (@create_conversation_first_owner counting_clock plain_engine
              (py "c2") (py "ann@edu.org") (py "Series") chat_database
              Hfree (or_introl eq_refl))
    as (db' & Hcreate & _ & _ & _ & _ & Hagain).
  by exists db'.
Defined.

(** X24 for the conversations of ann. *)
Lemma get_all_conversations_owned_witness :
  (∀ rows, @order_by_updated_desc plain_engine rows ≡ₚ rows)
  ∧ NoDup
      (@get_all_conversations plain_engine (py "ann@edu.org")
         chat_database).*1
  ∧ ∀ cid title_,
      (cid, title_)
      ∈ @get_all_conversations plain_engine (py "ann@edu.org") chat_database
      ↔ ∃ conv, conversations chat_database !! cid = Some conv
                ∧ user_email conv = py "ann@edu.org"
                ∧ title conv = title_.
Proof.
  split; [intros rows; apply sort_by_Permutation|].
  apply (@get_all_conversations_owned plain_engine (py "ann@edu.org")
           chat_database).
  intros rows. apply sort_by_Permutation.
Defined.

(** X25 for a message in the conversation c0, the older one of ann. *)
Lemma add_message_lists_first_witness :
  @orders_by_update plain_engine
  ∧ conversations chat_database !! py "c0"
    = Some {| title := py "New Chat"; user_email := py "ann@edu.org";
              updated_at := 0 |}
  ∧ (∀ cid' conv', cid' ≠ py "c0" →
       conversations chat_database !! cid' = Some conv' →
       (updated_at conv'
        < @utcnow counting_clock (S (clock_reads chat_database)))%Z)
  ∧ ∃ db',
      @add_message counting_clock one_source_json plain_engine (py "c0")
        (py "user") (py "hi") None chat_database = (Done (), db')
      ∧ head (@get_all_conversations plain_engine (py "ann@edu.org") db')
        = Some (py "c0", py "New Chat").
Proof.
  assert (conversations chat_database !! py "c0"
          = Some {| title := py "New Chat"; user_email := py "ann@edu.org";
                    updated_at := 0 |}) as Hconv
    by (vm_compute; reflexivity).
  split; [exact plain_engine_orders|]. split; [exact Hconv|].
  split; [exact chat_database_updates|].
  destruct (@add_message_lists_first counting_clock one_source_json
              plain_engine (py "c0") (py "user") (py "hi") None
              chat_database _ plain_engine_orders Hconv
              chat_database_updates)
    as (db' & Hadd & Hhead).
  by exists db'.
Defined.
